(** * kh-timelines: the timeline parser and its two renderers

    A shallow embedding of [parseTimelineSource], [parseHeader],
    [isLikelyBodyStart], [renderTimelineHtml], [renderTimelineEntries] and
    [escapeHtml] of the plugin's main module, with the properties the
    specification states about them.

    JavaScript strings are sequences of UTF-16 code units; a code unit is
    modelled as a number in [N] and a string as a list of them.  The
    host's markdown renderer is a variable of the rendering section. *)

From Stdlib Require Import List NArith Bool Arith Lia Ascii.
From Stdlib Require String DecimalString.
Import ListNotations.
Import String.StringSyntax Ascii.AsciiSyntax.
Delimit Scope string_scope with string.
Delimit Scope char_scope with char.
Bind Scope string_scope with String.string.
Bind Scope char_scope with ascii.

Set Warnings "-register-all".

(* ================================================================== *)
(** ** JavaScript strings *)

Module JS.

Definition char := N.
Definition jsstring := list char.

(** A code unit from an ASCII character, a string from an ASCII literal. *)
Definition ch (a : ascii) : char := N_of_ascii a.
Definition lit (s : String.string) : jsstring :=
  map ch (String.list_ascii_of_string s).

Definition nl : char := 10%N.
Definition dquote : char := 34%N.

(** ECMAScript [WhiteSpace] and [LineTerminator]: what [String.prototype.trim]
    strips and what the regular expression class [\s] matches. *)
Definition is_ws (c : char) : bool :=
  ((9 <=? c) && (c <=? 13) || (c =? 32) || (c =? 160) || (c =? 5760)
   || (8192 <=? c) && (c <=? 8202) || (c =? 8232) || (c =? 8233)
   || (c =? 8239) || (c =? 8287) || (c =? 12288) || (c =? 65279))%N.

(** The regular expression class [\d]. *)
Definition is_digit (c : char) : bool := ((48 <=? c) && (c <=? 57))%N.

Fixpoint dropWhile (f : char -> bool) (s : jsstring) : jsstring :=
  match s with
  | [] => []
  | c :: r => if f c then dropWhile f r else s
  end.

Definition trimStart (s : jsstring) : jsstring := dropWhile is_ws s.
Definition trimEnd (s : jsstring) : jsstring := rev (dropWhile is_ws (rev s)).
Definition trim (s : jsstring) : jsstring := trimEnd (trimStart s).

(** [s.length === 0] and its negation [s.length > 0]. *)
Definition isEmpty (s : jsstring) : bool := (length s =? 0)%nat.
Definition nonEmpty (s : jsstring) : bool := (0 <? length s)%nat.

(** Truthiness of an optional string: [undefined] and [''] are falsy. *)
Definition truthy (o : option jsstring) : bool :=
  match o with
  | None => false
  | Some s => nonEmpty s
  end.

Fixpoint startsWith (p s : jsstring) : bool :=
  match p, s with
  | [], _ => true
  | _ :: _, [] => false
  | a :: p', b :: s' => (a =? b)%N && startsWith p' s'
  end.

(** The first occurrence of [sep] in [s]: the text before it and the text
    after it. *)
Fixpoint cut (sep s : jsstring) : option (jsstring * jsstring) :=
  if startsWith sep s then Some ([], skipn (length sep) s)
  else match s with
       | [] => None
       | c :: r =>
           match cut sep r with
           | Some (p, q) => Some (c :: p, q)
           | None => None
           end
       end.

(** The first match of the regular expression [\n{2,}]: the quantifier is
    greedy, so the match takes the whole run of line feeds. *)
Fixpoint cutBlank (s : jsstring) : option (jsstring * jsstring) :=
  match s with
  | [] => None
  | c :: r =>
      if (c =? nl)%N && startsWith [nl] r
      then Some ([], dropWhile (fun x => (x =? nl)%N) r)
      else match cutBlank r with
           | Some (p, q) => Some (c :: p, q)
           | None => None
           end
  end.

(** [String.prototype.split] for a separator that matches no empty string:
    cut at the first match, go on with the rest.  Every cut removes at least
    one code unit, so [length s] steps are enough. *)
Fixpoint splitWith (cutter : jsstring -> option (jsstring * jsstring))
    (fuel : nat) (s : jsstring) : list jsstring :=
  match fuel with
  | O => [s]
  | S k =>
      match cutter s with
      | None => [s]
      | Some (p, q) => p :: splitWith cutter k q
      end
  end.

Definition split (sep s : jsstring) : list jsstring :=
  splitWith (cut sep) (length s) s.

Definition splitBlank (s : jsstring) : list jsstring :=
  splitWith cutBlank (length s) s.

(** [Array.prototype.join]. *)
Fixpoint join (sep : jsstring) (parts : list jsstring) : jsstring :=
  match parts with
  | [] => []
  | [x] => x
  | x :: rest => x ++ sep ++ join sep rest
  end.

(** [s.replace(/c/g, r)] for a single code unit [c]. *)
Definition replaceChar (c : char) (r : jsstring) (s : jsstring) : jsstring :=
  flat_map (fun x => if (x =? c)%N then r else [x]) s.

(** [String.prototype.includes]. *)
Fixpoint includes (sep s : jsstring) : bool :=
  startsWith sep s
  || match s with
     | [] => false
     | _ :: r => includes sep r
     end.

(** [sep] occurs in [s]. *)
Definition Contains (sep s : jsstring) : Prop :=
  exists p q, s = p ++ sep ++ q.

(** [pre] is what stands before the first occurrence of [sep] in [s], and
    [post] what stands after it. *)
Definition FirstOccurrence (sep s pre post : jsstring) : Prop :=
  s = pre ++ sep ++ post /\
  forall p q, s = p ++ sep ++ q -> length pre <= length p.

End JS.
Import JS.

(* ================================================================== *)
(** ** The data model *)

Record TimelineEntry := mkEntry {
  date : option jsstring;
  title : option jsstring;
  body : jsstring
}.

(** An entry written [{body: block}] in the source. *)
Definition bodyOnly (block : jsstring) : TimelineEntry :=
  mkEntry None None block.

Record TimelinePluginSettings := mkSettings {
  showMarkers : bool;
  defaultDateLabel : jsstring
}.

Definition DEFAULT_SETTINGS : TimelinePluginSettings :=
  mkSettings true (lit "Date").

(** The result of [parseHeader]. *)
Record Header := mkHeader {
  h_date : option jsstring;
  h_title : option jsstring
}.

(* ================================================================== *)
(** ** The header parser *)

(** [x.length > 0 ? x : undefined]. *)
Definition orUndefined (x : jsstring) : option jsstring :=
  if nonEmpty x then Some x else None.

Definition pipe : jsstring := lit "|".
Definition dash : jsstring := lit " - ".

Definition parseHeader (headerLine : jsstring) : Header :=
  let pipeParts := split pipe headerLine in
  if (2 <=? length pipeParts)%nat then
    let date := trim (hd [] pipeParts) in
    let title := trim (join pipe (skipn 1 pipeParts)) in
    mkHeader (orUndefined date) (orUndefined title)
  else
    let dashParts := split dash headerLine in
    if (2 <=? length dashParts)%nat then
      let date := trim (hd [] dashParts) in
      let title := trim (join dash (skipn 1 dashParts)) in
      mkHeader (orUndefined date) (orUndefined title)
    else
      let header := trim headerLine in
      mkHeader None (orUndefined header).

(** The alternatives of the regular expression
    [^(```|>\s+|[-*+]\s+|\d+\.)], each tested at the start of the line. *)
Definition fenceAt (t : jsstring) : bool := startsWith (lit "```") t.

Definition quoteAt (t : jsstring) : bool :=
  match t with
  | c :: w :: _ => (c =? ch ">")%N && is_ws w
  | _ => false
  end.

Definition bulletAt (t : jsstring) : bool :=
  match t with
  | c :: w :: _ =>
      ((c =? ch "-")%N || (c =? ch "*")%N || (c =? ch "+")%N) && is_ws w
  | _ => false
  end.

Definition orderedAt (t : jsstring) : bool :=
  match t with
  | c :: r =>
      is_digit c
      && match dropWhile is_digit r with
         | d :: _ => (d =? ch ".")%N
         | [] => false
         end
  | [] => false
  end.

Definition isLikelyBodyStart (line : jsstring) : bool :=
  let trimmed := trim line in
  if isEmpty trimmed then true
  else if fenceAt trimmed || quoteAt trimmed || bulletAt trimmed
          || orderedAt trimmed
       then true
       else false.

(** What a line that [isLikelyBodyStart] takes for body begins with: a code
    fence, a block-quote marker and a white-space character, an
    unordered-list marker and a white-space character, or an ordered-list
    marker (digits followed by a period). *)
Inductive BodyMarker : jsstring -> Prop :=
| FencedCode r :
    BodyMarker (lit "```" ++ r)
| BlockQuote w r :
    is_ws w = true -> BodyMarker (ch ">" :: w :: r)
| UnorderedList c w r :
    In c [ch "-"; ch "*"; ch "+"] -> is_ws w = true ->
    BodyMarker (c :: w :: r)
| OrderedList ds r :
    ds <> [] -> forallb is_digit ds = true ->
    BodyMarker (ds ++ ch "." :: r).

(* ================================================================== *)
(** ** The block segmenter *)

Definition blockLines (block : jsstring) : list jsstring := split [nl] block.

(** [lines[0]], the first line of the block. *)
Definition firstLineOf (block : jsstring) : jsstring :=
  hd [] (blockLines block).

(** [lines[0]?.trim() ?? '']. *)
Definition headerLineOf (block : jsstring) : jsstring :=
  match blockLines block with
  | l :: _ => trim l
  | [] => []
  end.

(** [lines.slice(1).join('\n').trim()]. *)
Definition bodyLinesOf (block : jsstring) : jsstring :=
  trim (join [nl] (skipn 1 (blockLines block))).

(** One turn of the loop of [parseTimelineSource]: the entry pushed for
    [block]. *)
Definition parseBlock (block : jsstring) : TimelineEntry :=
  let headerLine := headerLineOf block in
  let bodyLines := bodyLinesOf block in
  let headerIsBody := isLikelyBodyStart headerLine in
  if headerIsBody then bodyOnly block
  else
    let h := parseHeader headerLine in
    let body := if nonEmpty bodyLines then bodyLines else [] in
    if negb (truthy (h_date h)) && negb (truthy (h_title h)) && isEmpty body
    then bodyOnly block
    else mkEntry (h_date h) (h_title h) body.

(** [trimmedSource.split(/\n{2,}/).map(block => block.trim()).filter(Boolean)]. *)
Definition blocksOf (trimmedSource : jsstring) : list jsstring :=
  filter nonEmpty (map trim (splitBlank trimmedSource)).

Definition parseTimelineSource (source : jsstring) : list TimelineEntry :=
  let trimmedSource := trim source in
  if isEmpty trimmedSource then []
  else map parseBlock (blocksOf trimmedSource).

(* ================================================================== *)
(** ** Escaping *)

Definition escapeHtml (value : jsstring) : jsstring :=
  replaceChar (ch "'") (lit "&#39;")
    (replaceChar dquote (lit "&quot;")
      (replaceChar (ch ">") (lit "&gt;")
        (replaceChar (ch "<") (lit "&lt;")
          (replaceChar (ch "&") (lit "&amp;") value)))).

(** What the five replacements together make of one code unit. *)
Definition escapeChar (c : char) : jsstring :=
  if (c =? ch "&")%N then lit "&amp;"
  else if (c =? ch "<")%N then lit "&lt;"
  else if (c =? ch ">")%N then lit "&gt;"
  else if (c =? dquote)%N then lit "&quot;"
  else if (c =? ch "'")%N then lit "&#39;"
  else [c].

(** The five entities [escapeHtml] writes, with the character each stands
    for. *)
Definition entities : list (jsstring * char) :=
  [(lit "&amp;", ch "&"); (lit "&lt;", ch "<"); (lit "&gt;", ch ">");
   (lit "&quot;", dquote); (lit "&#39;", ch "'")].

Definition entityAt (s : jsstring) : option (char * nat) :=
  match find (fun e => startsWith (fst e) s) entities with
  | Some (name, c) => Some (c, length name)
  | None => None
  end.

(** The decoder of the specification, which reverses the five substitutions:
    an entity becomes its character, any other code unit is kept.  [skip]
    counts the code units of an entity still to pass over. *)
Fixpoint decodeFrom (skip : nat) (s : jsstring) : jsstring :=
  match s with
  | [] => []
  | c :: r =>
      match skip with
      | S k => decodeFrom k r
      | O =>
          match entityAt s with
          | Some (x, len) => x :: decodeFrom (pred len) r
          | None => c :: decodeFrom 0 r
          end
      end
  end.

Definition decodeHtml (s : jsstring) : jsstring := decodeFrom 0 s.

(** No reserved character stands raw in [s]: [<], [>], the two quotes do not
    occur at all, and every [&] starts one of the five entities. *)
Fixpoint noRawReserved (s : jsstring) : bool :=
  match s with
  | [] => true
  | c :: r =>
      negb ((c =? ch "<")%N || (c =? ch ">")%N || (c =? dquote)%N
            || (c =? ch "'")%N)
      && (if (c =? ch "&")%N
          then match entityAt s with Some _ => true | None => false end
          else true)
      && noRawReserved r
  end.

(* ================================================================== *)
(** ** The two renderers *)

(** An [await] in an [async] function: go on with the value of a fulfilled
    promise, reject with a rejected one.  [None] is the rejected promise. *)
Definition andThen {A B : Type} (promise : option A) (k : A -> option B)
  : option B :=
  match promise with
  | Some x => k x
  | None => None
  end.

Notation "'await' x <- promise ; k" := (andThen promise (fun x => k))
  (at level 10, x name, promise at level 10, k at level 200).

(** The pieces of markup the static renderer appends. *)
Module Markup.

Definition divOpen (cls : String.string) : jsstring :=
  lit "<div class=" ++ dquote :: lit cls ++ dquote :: lit ">".

Definition spanOpen (cls : String.string) : jsstring :=
  lit "<span class=" ++ dquote :: lit cls ++ dquote :: lit ">".

Definition hiddenDiv (cls : String.string) : jsstring :=
  lit "<div class=" ++ dquote :: lit cls ++ dquote
    :: lit " aria-hidden=" ++ dquote :: lit "true" ++ dquote
    :: lit "></div>".

Definition timelineOpen : jsstring := divOpen "timeline".
Definition emptyBlock : jsstring :=
  divOpen "timeline-empty" ++ lit "No timeline entries found.</div></div>".
Definition startMarker : jsstring := hiddenDiv "timeline-start-marker".
Definition itemOpen : jsstring := divOpen "timeline-item".
Definition marker : jsstring := hiddenDiv "timeline-marker".
Definition contentOpen : jsstring := divOpen "timeline-content".
Definition metaOpen : jsstring := divOpen "timeline-meta".
Definition dateSpan (dateText : jsstring) : jsstring :=
  spanOpen "timeline-date" ++ escapeHtml dateText ++ lit "</span>".
Definition titleSpan (title : jsstring) : jsstring :=
  spanOpen "timeline-title" ++ escapeHtml title ++ lit "</span>".
Definition bodyBlock (bodyHtml : jsstring) : jsstring :=
  divOpen "timeline-body" ++ bodyHtml ++ lit "</div>".
Definition divClose : jsstring := lit "</div>".
Definition itemClose : jsstring := lit "</div></div>".

End Markup.

(** [entry.date ?? (fallbackDate.length > 0 ? fallbackDate : undefined)],
    the same expression in both renderers. *)
Definition dateTextOf (settings : TimelinePluginSettings)
    (entry : TimelineEntry) : option jsstring :=
  let fallbackDate := trim (defaultDateLabel settings) in
  match date entry with
  | Some d => Some d
  | None => if nonEmpty fallbackDate then Some fallbackDate else None
  end.

(** [if (x) { ... f(x) ... }] for an optional string [x]. *)
Definition whenTruthy {A : Type} (o : option jsstring) (f : jsstring -> A)
  : list A :=
  match o with
  | Some s => if nonEmpty s then [f s] else []
  | None => []
  end.

Inductive Tag := div | span.

Section Rendering.

(** What [MarkdownRenderer.renderMarkdown] puts into its host element for a
    markdown text and a source path; [None] is a rejected promise. *)
Variable Rendered : Type.
Variable renderMarkdown : jsstring -> jsstring -> option Rendered.
(** [innerHTML] of a host element with that content. *)
Variable innerHTML : Rendered -> jsstring.

(* ------------------------------------------------------------------ *)
(** *** The static renderer

    Every [html += ...] of the source appends one segment; the result is the
    concatenation of the segments in order. *)

Definition htmlMeta (settings : TimelinePluginSettings)
    (entry : TimelineEntry) : list jsstring :=
  let dateText := dateTextOf settings entry in
  if truthy dateText || truthy (title entry) then
    [Markup.metaOpen]
      ++ whenTruthy dateText Markup.dateSpan
      ++ whenTruthy (title entry) Markup.titleSpan
      ++ [Markup.divClose]
  else [].

Definition htmlBody (sourcePath : jsstring) (entry : TimelineEntry)
  : option (list jsstring) :=
  let body := trim (body entry) in
  if nonEmpty body then
    await bodyHost <- renderMarkdown body sourcePath ;
    let bodyHtml := trim (innerHTML bodyHost) in
    Some (if nonEmpty bodyHtml then [Markup.bodyBlock bodyHtml] else [])
  else Some [].

Definition htmlItem (settings : TimelinePluginSettings)
    (sourcePath : jsstring) (entry : TimelineEntry) : option (list jsstring) :=
  let html :=
    [Markup.itemOpen]
      ++ (if showMarkers settings then [Markup.marker] else [])
      ++ [Markup.contentOpen]
      ++ htmlMeta settings entry in
  await bodySegments <- htmlBody sourcePath entry ;
  Some (html ++ bodySegments ++ [Markup.itemClose]).

Fixpoint htmlItems (settings : TimelinePluginSettings)
    (sourcePath : jsstring) (entries : list TimelineEntry)
  : option (list jsstring) :=
  match entries with
  | [] => Some []
  | entry :: rest =>
      await item <- htmlItem settings sourcePath entry ;
      await more <- htmlItems settings sourcePath rest ;
      Some (item ++ more)
  end.

Definition renderTimelineHtmlSegments (source : jsstring)
    (settings : TimelinePluginSettings) (sourcePath : jsstring)
  : option (list jsstring) :=
  let entries := parseTimelineSource source in
  let html := [Markup.timelineOpen] in
  if (length entries =? 0)%nat then Some (html ++ [Markup.emptyBlock])
  else
    let html :=
      html ++ (if showMarkers settings then [Markup.startMarker] else []) in
    await items <- htmlItems settings sourcePath entries ;
    Some (html ++ items ++ [Markup.divClose]).

Definition renderTimelineHtml (source : jsstring)
    (settings : TimelinePluginSettings) (sourcePath : jsstring)
  : option jsstring :=
  option_map (@concat char)
    (renderTimelineHtmlSegments source settings sourcePath).

(* ------------------------------------------------------------------ *)
(** *** The live renderer

    The node tree built with [createDiv], [createSpan] and [setText]. *)

Inductive Node :=
| El (tag : Tag) (cls : String.string)
     (attrs : list (String.string * String.string)) (children : list Node)
| Text (text : jsstring)
| Prose (content : Rendered).

Definition ariaHidden : list (String.string * String.string) :=
  [("aria-hidden", "true")%string].

Definition liveMeta (settings : TimelinePluginSettings)
    (entry : TimelineEntry) : list Node :=
  let dateText := dateTextOf settings entry in
  if truthy dateText || truthy (title entry) then
    [El div "timeline-meta" []
       (whenTruthy dateText (fun d => El span "timeline-date" [] [Text d])
        ++ whenTruthy (title entry)
             (fun t => El span "timeline-title" [] [Text t]))]
  else [].

(** [bodyEl] is created before the body is looked at. *)
Definition liveBody (sourcePath : jsstring) (entry : TimelineEntry)
  : option Node :=
  let body := trim (body entry) in
  if nonEmpty body then
    await content <- renderMarkdown body sourcePath ;
    Some (El div "timeline-body" [] [Prose content])
  else Some (El div "timeline-body" [] []).

Definition liveItem (settings : TimelinePluginSettings)
    (sourcePath : jsstring) (entry : TimelineEntry) : option Node :=
  let markers :=
    if showMarkers settings then [El div "timeline-marker" ariaHidden []]
    else [] in
  await bodyEl <- liveBody sourcePath entry ;
  Some (El div "timeline-item" []
          (markers
           ++ [El div "timeline-content" []
                 (liveMeta settings entry ++ [bodyEl])])).

Fixpoint liveItems (settings : TimelinePluginSettings)
    (sourcePath : jsstring) (entries : list TimelineEntry)
  : option (list Node) :=
  match entries with
  | [] => Some []
  | entry :: rest =>
      await item <- liveItem settings sourcePath entry ;
      await more <- liveItems settings sourcePath rest ;
      Some (item :: more)
  end.

(** The children [renderTimelineEntries] appends to [container]. *)
Definition renderTimelineEntries (entries : list TimelineEntry)
    (sourcePath : jsstring) (settings : TimelinePluginSettings)
  : option (list Node) :=
  if (length entries =? 0)%nat then
    Some [El div "timeline-empty" [] [Text (lit "No timeline entries found.")]]
  else
    let start :=
      if showMarkers settings
      then [El div "timeline-start-marker" ariaHidden []]
      else [] in
    await items <- liveItems settings sourcePath entries ;
    Some (start ++ items).

(** The code-block processor registered in [onload]. *)
Definition processCodeBlock (source : jsstring) (sourcePath : jsstring)
    (settings : TimelinePluginSettings) : option Node :=
  let entries := parseTimelineSource source in
  await children <- renderTimelineEntries entries sourcePath settings ;
  Some (El div "timeline" [] children).

End Rendering.

Arguments El {Rendered} tag cls attrs children.
Arguments Text {Rendered} text.
Arguments Prose {Rendered} content.
Arguments htmlBody {Rendered} renderMarkdown innerHTML sourcePath entry.
Arguments htmlItem {Rendered} renderMarkdown innerHTML settings sourcePath entry.
Arguments htmlItems {Rendered} renderMarkdown innerHTML settings sourcePath
  entries.
Arguments renderTimelineHtmlSegments {Rendered} renderMarkdown innerHTML
  source settings sourcePath.
Arguments renderTimelineHtml {Rendered} renderMarkdown innerHTML
  source settings sourcePath.
Arguments liveMeta {Rendered} settings entry.
Arguments liveBody {Rendered} renderMarkdown sourcePath entry.
Arguments liveItem {Rendered} renderMarkdown settings sourcePath entry.
Arguments liveItems {Rendered} renderMarkdown settings sourcePath entries.
Arguments renderTimelineEntries {Rendered} renderMarkdown entries sourcePath
  settings.
Arguments processCodeBlock {Rendered} renderMarkdown source sourcePath
  settings.

(** The title span of the live tree. *)
Definition liveTitle {Rendered : Type} (t : jsstring) : Node Rendered :=
  El span "timeline-title" [] [Text t].

(** The date span of the live tree. *)
Definition liveDate {Rendered : Type} (d : jsstring) : Node Rendered :=
  El span "timeline-date" [] [Text d].

(** A source of two blocks for the examples. *)
Definition sampleSource : jsstring :=
  lit "2024-01-01 | Launch" ++ [nl] ++ lit "Body text" ++ [nl; nl]
  ++ lit "Just a title".

(** A stand-in for the host's renderer in the examples: the text in one
    paragraph; the rendered content is its own markup. *)
Definition paragraphRenderer (text _ : jsstring) : option jsstring :=
  Some (lit "<p>" ++ text ++ lit "</p>").

(* ================================================================== *)
(** ** The plugin: batch conversion, settings, marker visibility *)

(** The regular expression [/```timeline\s*\n([\s\S]*?)\n```/g] of
    [convertTimelineBlocksToHtml]. *)
Definition fenceOpen : jsstring := lit "```timeline".
Definition fenceClose : jsstring := nl :: lit "```".

(** [([\s\S]*?)\n```]: the group is lazy, so it takes the text up to the
    first closing fence; the result is the group and what follows the
    match. *)
Definition lazyBody (s : jsstring) : option (jsstring * jsstring) :=
  cut fenceClose s.

(** [\s*\n([\s\S]*?)\n```] at the start of [s].  The star is greedy: it
    takes one more white-space character whenever the rest of the pattern
    still matches after it, and only then tries the line feed where it
    stands. *)
Fixpoint afterInfo (s : jsstring) : option (jsstring * jsstring) :=
  match s with
  | [] => None
  | c :: r =>
      if is_ws c then
        match afterInfo r with
        | Some m => Some m
        | None => if (c =? nl)%N then lazyBody r else None
        end
      else None
  end.

(** The whole pattern at the start of [s]. *)
Definition matchHere (s : jsstring) : option (jsstring * jsstring) :=
  if startsWith fenceOpen s then afterInfo (skipn (length fenceOpen) s)
  else None.

(** [timelineRegex.exec] on the text [s] that starts at [lastIndex]: the
    text before the first match ([content.slice(lastIndex, match.index)]),
    the group [match[1]], and the text from the new [lastIndex] on. *)
Fixpoint execTimeline (s : jsstring)
  : option (jsstring * jsstring * jsstring) :=
  match matchHere s with
  | Some (source, rest) => Some ([], source, rest)
  | None =>
      match s with
      | [] => None
      | c :: r =>
          match execTimeline r with
          | Some (before, source, rest) => Some (c :: before, source, rest)
          | None => None
          end
      end
  end.

(** [`${replacedCount}`]. *)
Definition decimal (n : nat) : jsstring :=
  lit (DecimalString.NilZero.string_of_uint (Nat.to_uint n)).

(** What [convertTimelineBlocksToHtml] does to the file: nothing, or
    [vault.modify] with the new content after [replacedCount] blocks. *)
Inductive ConvertOutcome :=
| NoBlocksFound
| Converted (newContent : jsstring) (replacedCount : nat).

(** The text of the [Notice] shown at the end. *)
Definition noticeOf (outcome : ConvertOutcome) : jsstring :=
  match outcome with
  | NoBlocksFound => lit "No timeline code blocks found in this file."
  | Converted _ replacedCount =>
      lit "Converted " ++ decimal replacedCount
      ++ lit " timeline block(s) to HTML."
  end.

Section Conversion.

Variable Rendered : Type.
Variable renderMarkdown : jsstring -> jsstring -> option Rendered.
Variable innerHTML : Rendered -> jsstring.

(** The [while] loop: [rest] is the content from [lastIndex] on.  Every
    match is at least as long as the two fences, so [length content] turns
    are enough. *)
Fixpoint convertLoop (fuel : nat) (settings : TimelinePluginSettings)
    (filePath : jsstring) (rest output : jsstring) (replacedCount : nat)
  : option (jsstring * jsstring * nat) :=
  match fuel with
  | O => Some (rest, output, replacedCount)
  | S k =>
      match execTimeline rest with
      | None => Some (rest, output, replacedCount)
      | Some (before, source, rest') =>
          let output := output ++ before in
          await html <-
            renderTimelineHtml renderMarkdown innerHTML source settings
              filePath ;
          let output := output ++ html in
          convertLoop k settings filePath rest' output (S replacedCount)
      end
  end.

(** [content] is what [vault.read] gave for the file. *)
Definition convertTimelineBlocksToHtml (content : jsstring)
    (settings : TimelinePluginSettings) (filePath : jsstring)
  : option ConvertOutcome :=
  await r <- convertLoop (length content) settings filePath content [] 0 ;
  let '(rest, output, replacedCount) := r in
  if (replacedCount =? 0)%nat then Some NoBlocksFound
  else Some (Converted (output ++ rest) replacedCount).

End Conversion.

Arguments convertLoop {Rendered} renderMarkdown innerHTML fuel settings
  filePath rest output replacedCount.
Arguments convertTimelineBlocksToHtml {Rendered} renderMarkdown innerHTML
  content settings filePath.

(** The new content a conversion leaves in the file. *)
Definition contentAfter (content : jsstring) (outcome : ConvertOutcome)
  : jsstring :=
  match outcome with
  | NoBlocksFound => content
  | Converted newContent _ => newContent
  end.

Definition countOf (outcome : ConvertOutcome) : nat :=
  match outcome with
  | NoBlocksFound => 0
  | Converted _ replacedCount => replacedCount
  end.

(** [document.body.classList]: the class names in order. *)
Definition classList := list String.string.

Definition classListContains (cls : String.string) (l : classList) : bool :=
  existsb (String.eqb cls) l.

Definition classListAdd (cls : String.string) (l : classList) : classList :=
  if classListContains cls l then l else l ++ [cls].

Definition classListRemove (cls : String.string) (l : classList)
  : classList :=
  filter (fun x => negb (String.eqb cls x)) l.

(** [classList.toggle(cls, force)]. *)
Definition classListToggle (cls : String.string) (force : bool)
    (l : classList) : classList :=
  if force then classListAdd cls l else classListRemove cls l.

Definition hideMarkersClass : String.string := "timeline-hide-markers".

(** The plugin's state: its settings and the class list of the document
    body. *)
Record PluginState := mkState {
  settings : TimelinePluginSettings;
  bodyClasses : classList
}.

Definition applyMarkerVisibility (st : PluginState) : PluginState :=
  mkState (settings st)
    (classListToggle hideMarkersClass (negb (showMarkers (settings st)))
       (bodyClasses st)).

(** What [loadData] gives: nothing, or an object with some of the keys. *)
Record StoredData := mkStored {
  storedShowMarkers : option bool;
  storedDefaultDateLabel : option jsstring
}.

(** [Object.assign({}, DEFAULT_SETTINGS, await this.loadData())]. *)
Definition loadSettings (data : option StoredData) : TimelinePluginSettings :=
  match data with
  | None => DEFAULT_SETTINGS
  | Some d =>
      mkSettings
        (match storedShowMarkers d with
         | Some b => b
         | None => showMarkers DEFAULT_SETTINGS
         end)
        (match storedDefaultDateLabel d with
         | Some l => l
         | None => defaultDateLabel DEFAULT_SETTINGS
         end)
  end.

(** [onload], as far as the state goes, for the [data] that a fulfilled
    [loadData] gave: load the settings, apply the marker visibility. *)
Definition onload (data : option StoredData) (classes : classList)
  : PluginState :=
  applyMarkerVisibility (mkState (loadSettings data) classes).

(** The callback registered for unloading. *)
Definition onunload (st : PluginState) : PluginState :=
  mkState (settings st) (classListRemove hideMarkersClass (bodyClasses st)).

(** The [onChange] handler of the toggle in the settings tab.  It assigns
    the setting, awaits [saveSettings], and only then applies the marker
    visibility: [saved] tells whether the promise of [saveSettings] was
    fulfilled; when it is rejected the handler stops, the setting is changed
    and the class of the body is left as it was. *)
Definition onShowMarkersChange (value : bool) (saved : bool)
    (st : PluginState) : PluginState :=
  let st1 :=
    mkState (mkSettings value (defaultDateLabel (settings st)))
      (bodyClasses st) in
  if saved then applyMarkerVisibility st1 else st1.

(** The [onChange] handler of the label: the assignment comes before the
    [await], and nothing after it changes the state. *)
Definition onDefaultDateLabelChange (value : jsstring) (st : PluginState)
  : PluginState :=
  mkState (mkSettings (showMarkers (settings st)) (trim value))
    (bodyClasses st).

(** The events that change the state of a loaded plugin. *)
Inductive SettingsEvent :=
| ShowMarkersChanged (value : bool) (saved : bool)
| DefaultDateLabelChanged (value : jsstring).

Definition handle (ev : SettingsEvent) (st : PluginState) : PluginState :=
  match ev with
  | ShowMarkersChanged value saved => onShowMarkersChange value saved st
  | DefaultDateLabelChanged value => onDefaultDateLabelChange value st
  end.

(** The state after a sequence of changes in the settings tab. *)
Definition runEvents (events : list SettingsEvent) (st : PluginState)
  : PluginState :=
  fold_left (fun s ev => handle ev s) events st.

(** Every change of [showMarkers] in the sequence was saved. *)
Definition allSaved (events : list SettingsEvent) : bool :=
  forallb (fun ev =>
             match ev with
             | ShowMarkersChanged _ saved => saved
             | DefaultDateLabelChanged _ => true
             end) events.

(** The class of the body agrees with the setting. *)
Definition classInSync (st : PluginState) : Prop :=
  In hideMarkersClass (bodyClasses st)
  <-> showMarkers (settings st) = false.

(** A note with one timeline block, for the examples. *)
Definition sampleNote : jsstring :=
  lit "# Notes" ++ [nl] ++ fenceOpen ++ lit "  " ++ [nl]
  ++ lit "2024 | Launch" ++ fenceClose ++ [nl] ++ lit "end".

(** A reserved markup character. *)
Definition isReserved (c : char) : bool :=
  ((c =? ch "&") || (c =? ch "<") || (c =? ch ">") || (c =? dquote)
   || (c =? ch "'"))%N.

(** The host's renderer is asked for the body of [entry] and rejects. *)
Definition bodyRejected {Rendered : Type}
    (renderMarkdown : jsstring -> jsstring -> option Rendered)
    (sourcePath : jsstring) (entry : TimelineEntry) : Prop :=
  trim (body entry) <> []
  /\ renderMarkdown (trim (body entry)) sourcePath = None.

(** The markers as the specification words them: the marker itself, with
    nothing said of the character after it. *)
Inductive MarkupMarker : jsstring -> Prop :=
| MarkupFence r :
    MarkupMarker (lit "```" ++ r)
| MarkupQuote r :
    MarkupMarker (ch ">" :: r)
| MarkupBullet c r :
    In c [ch "-"; ch "*"; ch "+"] -> MarkupMarker (c :: r)
| MarkupOrdered ds r :
    ds <> [] -> forallb is_digit ds = true ->
    MarkupMarker (ds ++ ch "." :: r).

(** How many times [pat] occurs in the string [s]: the positions of [s]
    where [pat] starts. *)
Fixpoint occurrences (pat s : jsstring) : nat :=
  match s with
  | [] => 0
  | _ :: r => (if startsWith pat s then 1 else 0) + occurrences pat r
  end.

(** The start of the opening tag of a [div] with the class [cls]. *)
Definition tagOpen (cls : String.string) : jsstring :=
  lit "<div class=" ++ dquote :: lit cls ++ [dquote].

Definition startMarkerTag : jsstring := tagOpen "timeline-start-marker".
Definition markerTag : jsstring := tagOpen "timeline-marker".
Definition itemTag : jsstring := tagOpen "timeline-item".

(** How many elements of the tree [n] carry the class [c], those of the
    rendered prose included: [inProse c r] is their number in the content
    [r] the host's renderer put into a body. *)
Fixpoint countClassWith {Rendered : Type}
    (inProse : String.string -> Rendered -> nat) (c : String.string)
    (n : Node Rendered) : nat :=
  match n with
  | El _ cls _ children =>
      (if String.eqb cls c then 1 else 0)
      + list_sum (map (countClassWith inProse c) children)
  | Text _ => 0
  | Prose r => inProse c r
  end.

Definition countClassInWith {Rendered : Type}
    (inProse : String.string -> Rendered -> nat) (c : String.string)
    (ns : list (Node Rendered)) : nat :=
  list_sum (map (countClassWith inProse c) ns).

(** What the host's renderer put into the body of [entry]: nothing when the
    trimmed body is empty and the renderer is not asked. *)
Definition bodyContent {Rendered : Type}
    (renderMarkdown : jsstring -> jsstring -> option Rendered)
    (sourcePath : jsstring) (entry : TimelineEntry) : option Rendered :=
  if nonEmpty (trim (body entry))
  then renderMarkdown (trim (body entry)) sourcePath
  else None.

(** The markup of the rendered body as the static renderer embeds it. *)
Definition renderedBodyHtml {Rendered : Type}
    (renderMarkdown : jsstring -> jsstring -> option Rendered)
    (innerHTML : Rendered -> jsstring)
    (sourcePath : jsstring) (entry : TimelineEntry) : jsstring :=
  match bodyContent renderMarkdown sourcePath entry with
  | Some host => trim (innerHTML host)
  | None => []
  end.

(** The occurrences of [pat] in the rendered bodies of [entries]. *)
Definition inBodies {Rendered : Type}
    (renderMarkdown : jsstring -> jsstring -> option Rendered)
    (innerHTML : Rendered -> jsstring)
    (sourcePath : jsstring) (pat : jsstring) (entries : list TimelineEntry)
  : nat :=
  list_sum
    (map (fun entry =>
            occurrences pat
              (renderedBodyHtml renderMarkdown innerHTML sourcePath entry))
       entries).

(** The elements of class [c] in the rendered bodies of [entries]. *)
Definition inProseOf {Rendered : Type}
    (inProse : String.string -> Rendered -> nat)
    (renderMarkdown : jsstring -> jsstring -> option Rendered)
    (sourcePath : jsstring) (c : String.string)
    (entries : list TimelineEntry) : nat :=
  list_sum
    (map (fun entry =>
            match bodyContent renderMarkdown sourcePath entry with
            | Some host => inProse c host
            | None => 0
            end)
       entries).

(** The string [x] holds [k] occurrences of [pat], and none begins in [x]
    and ends after it, whatever follows. *)
Definition Counts (pat x : jsstring) (k : nat) : Prop :=
  forall t, occurrences pat (x ++ t) = k + occurrences pat t.

(** The occurrences of [pat] in the pieces of markup the static renderer
    writes itself: [kStart] in the start marker, [kItem] in the opening of
    an item, [kMarker] in a marker, none in the others. *)
Definition Profile (pat : jsstring) (kStart kItem kMarker : nat) : Prop :=
  Counts pat Markup.timelineOpen 0
  /\ Counts pat Markup.emptyBlock 0
  /\ Counts pat Markup.startMarker kStart
  /\ Counts pat Markup.itemOpen kItem
  /\ Counts pat Markup.marker kMarker
  /\ Counts pat Markup.contentOpen 0
  /\ Counts pat Markup.metaOpen 0
  /\ Counts pat (Markup.spanOpen "timeline-date") 0
  /\ Counts pat (Markup.spanOpen "timeline-title") 0
  /\ Counts pat (lit "</span>") 0
  /\ Counts pat (Markup.divOpen "timeline-body") 0
  /\ Counts pat Markup.divClose 0
  /\ Counts pat Markup.itemClose 0.

(** A host that passes the markup of a body through, as markdown does for
    the HTML an author writes in it. *)
Definition rawHtmlHost (text _ : jsstring) : option jsstring := Some text.

(** A source of one entry whose body is the markup of a marker. *)
Definition rawMarkerSource : jsstring := lit "A" ++ [nl] ++ Markup.marker.

(* ================================================================== *)
(** ** The examples of the specification *)

Example parse_pipe_header :
  parseTimelineSource
    (lit "2024-01-01 | Launch" ++ nl :: lit "Body text")
  = [mkEntry (Some (lit "2024-01-01")) (Some (lit "Launch")) (lit "Body text")].
Proof. vm_compute. reflexivity. Qed.

Example parse_dash_header :
  parseTimelineSource
    (lit "2024-01-01 - Launch" ++ nl :: lit "Body text")
  = [mkEntry (Some (lit "2024-01-01")) (Some (lit "Launch")) (lit "Body text")].
Proof. vm_compute. reflexivity. Qed.

Example parse_bare_title :
  parseTimelineSource (lit "Just a title" ++ nl :: lit "Body text")
  = [mkEntry None (Some (lit "Just a title")) (lit "Body text")].
Proof. vm_compute. reflexivity. Qed.

Example parse_list_block :
  parseTimelineSource (lit "- item one" ++ nl :: lit "- item two")
  = [bodyOnly (lit "- item one" ++ nl :: lit "- item two")].
Proof. vm_compute. reflexivity. Qed.

Example parse_three_blocks :
  parseTimelineSource
    (lit "  a | b" ++ [nl; nl; nl] ++ lit "c" ++ [nl] ++ lit "d"
     ++ [nl; nl] ++ lit "|" ++ [nl])
  = [mkEntry (Some (lit "a")) (Some (lit "b")) [];
     mkEntry None (Some (lit "c")) (lit "d");
     bodyOnly (lit "|")].
Proof. vm_compute. reflexivity. Qed.

(* ================================================================== *)
(** ** Facts about strings *)

Module StringFacts.

Lemma dropWhile_idem f s : dropWhile f (dropWhile f s) = dropWhile f s.
Proof.
  induction s as [|c r IH]; simpl; auto.
  destruct (f c) eqn:E; auto. simpl. now rewrite E.
Qed.

Lemma dropWhile_all f s : forallb f s = true -> dropWhile f s = [].
Proof.
  induction s as [|c r IH]; simpl; auto.
  intros H. apply andb_true_iff in H as [Hc Hr]. rewrite Hc. auto.
Qed.

Lemma dropWhile_cases f s :
  dropWhile f s = [] \/
  exists c r, dropWhile f s = c :: r /\ f c = false.
Proof.
  induction s as [|c r IH]; simpl; auto.
  destruct (f c) eqn:E; auto. right. now exists c, r.
Qed.

Lemma dropWhile_nil_all f s : dropWhile f s = [] -> forallb f s = true.
Proof.
  induction s as [|c r IH]; simpl; auto.
  destruct (f c) eqn:E; simpl; auto. discriminate.
Qed.

Lemma dropWhile_snoc f a c :
  f c = false -> dropWhile f (a ++ [c]) = dropWhile f a ++ [c].
Proof.
  intros Hc. induction a as [|x a IH]; simpl.
  - now rewrite Hc.
  - destruct (f x); auto.
Qed.

Lemma forallb_rev (f : char -> bool) s : forallb f (rev s) = forallb f s.
Proof.
  induction s as [|c r IH]; simpl; auto.
  rewrite forallb_app, IH. simpl. rewrite andb_true_r. apply andb_comm.
Qed.

Lemma trimEnd_idem s : trimEnd (trimEnd s) = trimEnd s.
Proof.
  unfold trimEnd. now rewrite rev_involutive, dropWhile_idem.
Qed.

Lemma trimEnd_cons c s :
  is_ws c = false -> trimEnd (c :: s) = c :: trimEnd s.
Proof.
  intros Hc. unfold trimEnd. simpl. rewrite dropWhile_snoc by assumption.
  now rewrite rev_app_distr.
Qed.

Lemma trim_cons c s : is_ws c = false -> trim (c :: s) = c :: trimEnd s.
Proof.
  intros Hc. unfold trim, trimStart. simpl. rewrite Hc.
  now apply trimEnd_cons.
Qed.

Lemma trim_all_ws s : forallb is_ws s = true -> trim s = [].
Proof.
  intros H. unfold trim, trimStart. now rewrite dropWhile_all.
Qed.

(** A trimmed string is empty or starts with a character that is not white
    space. *)
Lemma trim_cases s :
  trim s = [] \/
  exists c r, is_ws c = false /\ trimStart s = c :: r
              /\ trim s = c :: trimEnd r.
Proof.
  unfold trim. destruct (dropWhile_cases is_ws s) as [E | (c & r & E & Hc)].
  - left. unfold trimStart. now rewrite E.
  - right. exists c, r. unfold trimStart. rewrite E. repeat split; auto.
    now apply trimEnd_cons.
Qed.

Lemma trim_nil_all_ws s : trim s = [] -> forallb is_ws s = true.
Proof.
  intros H. destruct (trim_cases s) as [_ | (c & r & _ & _ & E)].
  - unfold trim, trimEnd in H.
    assert (E : dropWhile is_ws (rev (trimStart s)) = []).
    { apply (f_equal (@rev char)) in H. now rewrite rev_involutive in H. }
    apply dropWhile_nil_all in E. rewrite forallb_rev in E.
    unfold trimStart in E.
    destruct (dropWhile_cases is_ws s) as [E' | (c & r & E' & Hc)].
    + now apply dropWhile_nil_all.
    + rewrite E' in E. simpl in E. now rewrite Hc in E.
  - congruence.
Qed.

Lemma trim_idem s : trim (trim s) = trim s.
Proof.
  destruct (trim_cases s) as [E | (c & r & Hc & _ & E)]; rewrite E.
  - reflexivity.
  - rewrite trim_cons by assumption. now rewrite trimEnd_idem.
Qed.

Lemma nonEmpty_isEmpty s : nonEmpty s = negb (isEmpty s).
Proof. now destruct s. Qed.

Lemma isEmpty_nil s : isEmpty s = true <-> s = [].
Proof. destruct s; simpl; split; auto; discriminate. Qed.

Lemma nonEmpty_true s : nonEmpty s = true <-> s <> [].
Proof.
  destruct s; simpl; split; intros H; try discriminate; auto.
Qed.

(* ------------------------------------------------------------------ *)

Lemma startsWith_skipn p s :
  startsWith p s = true -> s = p ++ skipn (length p) s.
Proof.
  revert s. induction p as [|a p IH]; intros s H; simpl; auto.
  destruct s as [|b s]; simpl in H; try discriminate.
  apply andb_true_iff in H as [Hab Hp]. apply N.eqb_eq in Hab. subst b.
  simpl. f_equal. now apply IH.
Qed.

Lemma startsWith_app p s : startsWith p (p ++ s) = true.
Proof.
  induction p as [|a p IH]; simpl; auto. now rewrite N.eqb_refl.
Qed.

Lemma cut_eq sep s :
  cut sep s =
  if startsWith sep s then Some ([], skipn (length sep) s)
  else match s with
       | [] => None
       | c :: r =>
           match cut sep r with
           | Some (p, q) => Some (c :: p, q)
           | None => None
           end
       end.
Proof. now destruct s. Qed.

Lemma cut_Some sep s p q :
  cut sep s = Some (p, q) -> FirstOccurrence sep s p q.
Proof.
  revert p. induction s as [|c r IH]; intros p H; rewrite cut_eq in H;
    destruct (startsWith sep _) eqn:E; try discriminate.
  - inversion H; subst. split; [now apply startsWith_skipn | simpl; lia].
  - inversion H; subst. split; [now apply startsWith_skipn | simpl; lia].
  - destruct (cut sep r) as [[p0 q0]|] eqn:C; inversion H; subst.
    destruct (IH p0 eq_refl) as [Hr Hmin]. split.
    + simpl. now f_equal.
    + intros p' q' Hs. destruct p' as [|c' p'].
      * simpl in Hs. rewrite Hs, startsWith_app in E. discriminate.
      * simpl in Hs. inversion Hs; subst. simpl.
        apply le_n_S. eapply Hmin. eassumption.
Qed.

Lemma cut_None sep s : cut sep s = None -> ~ Contains sep s.
Proof.
  induction s as [|c r IH]; intros H (p & q & Hs); rewrite cut_eq in H;
    destruct (startsWith sep _) eqn:E; try discriminate.
  - destruct p; simpl in Hs.
    + rewrite Hs, startsWith_app in E. discriminate.
    + discriminate.
  - destruct (cut sep r) as [[p0 q0]|] eqn:C; try discriminate.
    destruct p as [|c' p]; simpl in Hs.
    + rewrite Hs, startsWith_app in E. discriminate.
    + inversion Hs; subst. apply IH; auto. now exists p, q.
Qed.

Lemma FirstOccurrence_cut sep s p q :
  FirstOccurrence sep s p q -> cut sep s = Some (p, q).
Proof.
  intros [Hs Hmin]. destruct (cut sep s) as [[p1 q1]|] eqn:C.
  - destruct (cut_Some _ _ _ _ C) as [Hs1 Hmin1].
    assert (Hlen : length p1 = length p).
    { apply Nat.le_antisymm; [eapply Hmin1 | eapply Hmin]; eassumption. }
    rewrite Hs in Hs1.
    assert (Hp : p = p1).
    { apply (f_equal (firstn (length p))) in Hs1.
      rewrite firstn_app, Nat.sub_diag, firstn_all in Hs1. simpl in Hs1.
      rewrite app_nil_r in Hs1. rewrite Hs1, <- Hlen.
      rewrite firstn_app, Nat.sub_diag, firstn_all. simpl.
      now rewrite app_nil_r. }
    subst p1. apply app_inv_head in Hs1. apply app_inv_head in Hs1.
    now subst.
  - exfalso. apply (cut_None _ _ C). now exists p, q.
Qed.

Lemma not_Contains_cut sep s : ~ Contains sep s -> cut sep s = None.
Proof.
  intros H. destruct (cut sep s) as [[p q]|] eqn:C; auto.
  exfalso. apply H. exists p, q. now destruct (cut_Some _ _ _ _ C).
Qed.

(** Where [sep] occurs there is a first occurrence. *)
Lemma Contains_first sep s :
  Contains sep s -> exists pre post, FirstOccurrence sep s pre post.
Proof.
  intros H. destruct (cut sep s) as [[p q]|] eqn:C.
  - exists p, q. now apply cut_Some.
  - now apply cut_None in C.
Qed.

Lemma includes_Contains sep s : includes sep s = true <-> Contains sep s.
Proof.
  split.
  - induction s as [|c r IH]; simpl; intros H;
      apply orb_true_iff in H as [H | H]; try discriminate.
    + exists [], (skipn (length sep) []). now apply startsWith_skipn.
    + exists [], (skipn (length sep) (c :: r)). now apply startsWith_skipn.
    + destruct (IH H) as (p & q & Hr). exists (c :: p), q. simpl. now f_equal.
  - intros (p & q & Hs). subst s. induction p as [|c p IH]; simpl.
    + assert (E : forall s, includes sep s
                  = startsWith sep s
                    || match s with [] => false | _ :: r => includes sep r end)
        by now destruct s.
      now rewrite E, startsWith_app.
    + rewrite IH. apply orb_true_r.
Qed.

(* ------------------------------------------------------------------ *)

Lemma splitWith_nonempty cutter n s :
  exists x xs, splitWith cutter n s = x :: xs.
Proof.
  destruct n; simpl; [now exists s, [] |].
  destruct (cutter s) as [[p q]|]; eauto.
Qed.

Lemma join_cons sep x rest :
  rest <> [] -> join sep (x :: rest) = x ++ sep ++ join sep rest.
Proof. destruct rest; [congruence | reflexivity]. Qed.

Lemma join_splitWith sep cutter n s :
  (forall s p q, cutter s = Some (p, q) -> s = p ++ sep ++ q) ->
  join sep (splitWith cutter n s) = s.
Proof.
  intros Hcut. revert s. induction n as [|k IH]; intros s; simpl; auto.
  destruct (cutter s) as [[p q]|] eqn:C; auto.
  rewrite join_cons.
  - rewrite IH. symmetry. now apply Hcut.
  - destruct (splitWith_nonempty cutter k q) as (x & xs & E).
    rewrite E. discriminate.
Qed.

Lemma split_None sep s : cut sep s = None -> split sep s = [s].
Proof.
  intros C. unfold split. destruct (length s); simpl; auto. now rewrite C.
Qed.

Lemma split_Some sep s p q :
  sep <> [] -> cut sep s = Some (p, q) ->
  exists rest, split sep s = p :: rest /\ rest <> [] /\ join sep rest = q.
Proof.
  intros Hsep C. unfold split. destruct s as [|c r].
  - destruct sep; [congruence | discriminate].
  - simpl length. cbn [splitWith]. rewrite C.
    exists (splitWith (cut sep) (length r) q). split; auto. split.
    + destruct (splitWith_nonempty (cut sep) (length r) q) as (x & xs & E).
      rewrite E. discriminate.
    + apply join_splitWith. intros s' p' q' C'.
      now destruct (cut_Some _ _ _ _ C').
Qed.

(** The steps [split] allows are enough: with a cutter that shortens the
    string, any larger allowance gives the same parts, and [split] unfolds
    as the recursive function it stands for. *)
Lemma splitWith_enough cutter :
  (forall s p q, cutter s = Some (p, q) -> length q < length s) ->
  forall n m s,
    length s <= n -> length s <= m ->
    splitWith cutter n s = splitWith cutter m s.
Proof.
  intros Hcut.
  assert (Hnil : forall s, length s <= 0 -> cutter s = None).
  { intros s Hs. destruct (cutter s) as [[p q]|] eqn:C; auto.
    apply Hcut in C. lia. }
  induction n as [|k IH]; intros m s Hn Hm.
  - destruct m; simpl; auto. now rewrite Hnil.
  - destruct m as [|j]; simpl.
    + now rewrite Hnil.
    + destruct (cutter s) as [[p q]|] eqn:C; auto.
      apply Hcut in C. f_equal. apply IH; lia.
Qed.

Lemma cut_shrinks [sep] :
  sep <> [] ->
  forall s p q, cut sep s = Some (p, q) -> length q < length s.
Proof.
  intros Hsep s p q C. destruct (cut_Some _ _ _ _ C) as [-> _].
  rewrite !length_app. destruct sep; [congruence |].
  unfold jsstring, char in *. simpl. lia.
Qed.

Lemma dropWhile_length f s : length (dropWhile f s) <= length s.
Proof.
  induction s as [|c r IH]; simpl; auto. destruct (f c); simpl; lia.
Qed.

Lemma cutBlank_shrinks s p q :
  cutBlank s = Some (p, q) -> length q < length s.
Proof.
  revert p. induction s as [|c r IH]; intros p; cbn [cutBlank length];
    [discriminate |].
  destruct ((c =? nl)%N && startsWith [nl] r).
  - intros H. inversion H; subst.
    pose proof (dropWhile_length (fun x => (x =? nl)%N) r).
    unfold jsstring, char in *. lia.
  - destruct (cutBlank r) as [[p0 q0]|]; [|discriminate].
    intros H. inversion H; subst. specialize (IH p0 eq_refl).
    unfold jsstring, char in *. lia.
Qed.

Lemma split_unfold sep s :
  sep <> [] ->
  split sep s =
  match cut sep s with
  | None => [s]
  | Some (p, q) => p :: split sep q
  end.
Proof.
  intros Hsep. unfold split. destruct (cut sep s) as [[p q]|] eqn:C.
  - pose proof (cut_shrinks Hsep _ _ _ C) as Hlen.
    destruct s as [|c r]; [simpl in Hlen; lia |].
    cbn [length splitWith]. rewrite C. f_equal.
    apply (splitWith_enough _ (cut_shrinks Hsep));
      unfold jsstring, char in *; simpl in Hlen; lia.
  - destruct (length s); simpl; auto. now rewrite C.
Qed.

Lemma splitBlank_unfold s :
  splitBlank s =
  match cutBlank s with
  | None => [s]
  | Some (p, q) => p :: splitBlank q
  end.
Proof.
  unfold splitBlank. destruct (cutBlank s) as [[p q]|] eqn:C.
  - pose proof (cutBlank_shrinks _ _ _ C) as Hlen.
    destruct s as [|c r]; [simpl in Hlen; lia |].
    cbn [length splitWith]. rewrite C. f_equal.
    apply (splitWith_enough _ cutBlank_shrinks);
      unfold jsstring, char in *; simpl in Hlen; lia.
  - destruct (length s); simpl; auto. now rewrite C.
Qed.

End StringFacts.
Import StringFacts.

(* ================================================================== *)
(** ** The header parser *)

Lemma pipe_nonnil : pipe <> [].
Proof. discriminate. Qed.

Lemma dash_nonnil : dash <> [].
Proof. discriminate. Qed.

(** [parseHeader] by the first occurrence of each separator. *)
Lemma parseHeader_cut line :
  parseHeader line =
  match cut pipe line with
  | Some (p, q) => mkHeader (orUndefined (trim p)) (orUndefined (trim q))
  | None =>
      match cut dash line with
      | Some (p, q) => mkHeader (orUndefined (trim p)) (orUndefined (trim q))
      | None => mkHeader None (orUndefined (trim line))
      end
  end.
Proof.
  unfold parseHeader.
  destruct (cut pipe line) as [[p q]|] eqn:Cp.
  - destruct (split_Some _ _ _ _ pipe_nonnil Cp) as (rest & E & Hne & Hj).
    rewrite E. destruct rest as [|x xs]; [congruence |].
    cbn [length Nat.leb hd skipn]. now rewrite Hj.
  - rewrite (split_None _ _ Cp). cbn [length Nat.leb].
    destruct (cut dash line) as [[p q]|] eqn:Cd.
    + destruct (split_Some _ _ _ _ dash_nonnil Cd) as (rest & E & Hne & Hj).
      rewrite E. destruct rest as [|x xs]; [congruence |].
      cbn [length Nat.leb hd skipn]. now rewrite Hj.
    + now rewrite (split_None _ _ Cd).
Qed.

Lemma orUndefined_None x : orUndefined x = None <-> x = [].
Proof.
  unfold orUndefined. destruct x; simpl; split; auto; discriminate.
Qed.

Lemma orUndefined_Some x y : orUndefined x = Some y -> y <> [].
Proof.
  unfold orUndefined. destruct x; simpl; intros H; inversion H. discriminate.
Qed.


(** A field [parseHeader] sets is never the empty string. *)
Lemma parseHeader_fields line :
  (forall d, h_date (parseHeader line) = Some d -> d <> []) /\
  (forall t, h_title (parseHeader line) = Some t -> t <> []).
Proof.
  rewrite parseHeader_cut.
  destruct (cut pipe line) as [[p q]|]; [|destruct (cut dash line) as [[p q]|]];
    simpl; split; intros y H; try discriminate;
    eapply orUndefined_Some; eassumption.
Qed.

(** C2. [parseHeader] applies its three rules in a fixed priority.  If the
    line contains a pipe, the text before the first pipe, trimmed, is the
    date and all the text after that pipe, trimmed, is the title.  Else, if
    the line contains the separator [" - "], the text before its first
    occurrence is the date and the text after it the title.  Else the
    trimmed line is the title and there is no date.  A field whose text is
    empty after trimming is absent. *)
Theorem parseHeader_priority (line : jsstring) :
  (forall pre post,
      FirstOccurrence pipe line pre post ->
      parseHeader line
      = mkHeader (orUndefined (trim pre)) (orUndefined (trim post)))
  /\ (~ Contains pipe line ->
      forall pre post,
        FirstOccurrence dash line pre post ->
        parseHeader line
        = mkHeader (orUndefined (trim pre)) (orUndefined (trim post)))
  /\ (~ Contains pipe line -> ~ Contains dash line ->
      parseHeader line = mkHeader None (orUndefined (trim line))).
Proof.
  rewrite parseHeader_cut. repeat split.
  - intros pre post H. now rewrite (FirstOccurrence_cut _ _ _ _ H).
  - intros Hp pre post H.
    now rewrite (not_Contains_cut _ _ Hp), (FirstOccurrence_cut _ _ _ _ H).
  - intros Hp Hd. now rewrite (not_Contains_cut _ _ Hp), (not_Contains_cut _ _ Hd).
Qed.

Lemma parseHeader_priority_witness :
  parseHeader (lit "2024-01-01 | Launch | now")
  = mkHeader (Some (lit "2024-01-01")) (Some (lit "Launch | now"))
  /\ parseHeader (lit "2024-01-01 - Launch - now")
     = mkHeader (Some (lit "2024-01-01")) (Some (lit "Launch - now"))
  /\ parseHeader (lit "  Just a title ")
     = mkHeader None (Some (lit "Just a title")).
Proof.
  split; [|split].
  - destruct (parseHeader_priority (lit "2024-01-01 | Launch | now"))
      as (H & _ & _).
    rewrite (H (lit "2024-01-01 ") (lit " Launch | now")).
    + reflexivity.
    + apply cut_Some. reflexivity.
  - destruct (parseHeader_priority (lit "2024-01-01 - Launch - now"))
      as (_ & H & _).
    rewrite (H (cut_None pipe (lit "2024-01-01 - Launch - now") eq_refl)
               (lit "2024-01-01") (lit "Launch - now")).
    + reflexivity.
    + apply cut_Some. reflexivity.
  - destruct (parseHeader_priority (lit "  Just a title ")) as (_ & _ & H).
    rewrite (H (cut_None pipe (lit "  Just a title ") eq_refl)
               (cut_None dash (lit "  Just a title ") eq_refl)).
    reflexivity.
Defined.


Lemma trimEnd_all_ws s : forallb is_ws s = true -> trimEnd s = [].
Proof.
  intros H. unfold trimEnd. rewrite dropWhile_all; auto.
  now rewrite forallb_rev.
Qed.

(** The only header line without leading white space that yields neither a
    date nor a title is a lone pipe, up to trailing white space. *)
Lemma parseHeader_none_nonblank c l :
  is_ws c = false ->
  parseHeader (c :: l) = mkHeader None None ->
  trim (c :: l) = lit "|".
Proof.
  intros Hc H. rewrite parseHeader_cut in H.
  assert (Hne : forall p', trim (c :: p') <> [])
    by (intros p'; now rewrite trim_cons).
  destruct (cut pipe (c :: l)) as [[p q]|] eqn:Cp.
  - injection H as Hd Ht.
    apply orUndefined_None in Hd. apply orUndefined_None in Ht.
    destruct (cut_Some _ _ _ _ Cp) as [Hs _].
    destruct p as [|c' p']; inversion Hs; subst.
    + rewrite trim_cons by assumption.
      now rewrite trimEnd_all_ws by now apply trim_nil_all_ws.
    + now elim (Hne p').
  - destruct (cut dash (c :: l)) as [[p q]|] eqn:Cd.
    + injection H as Hd Ht. apply orUndefined_None in Hd.
      destruct (cut_Some _ _ _ _ Cd) as [Hs _].
      destruct p as [|c' p']; inversion Hs; subst; [discriminate |].
      now elim (Hne p').
    + injection H as Ht. apply orUndefined_None in Ht. now elim (Hne l).
Qed.

(* ================================================================== *)
(** ** The body-start classifier *)

Lemma dropWhile_split f s :
  exists a, s = a ++ dropWhile f s /\ forallb f a = true.
Proof.
  induction s as [|c r (a & E & Ha)]; simpl.
  - now exists [].
  - destruct (f c) eqn:Hc.
    + exists (c :: a). simpl. rewrite Hc, Ha. split; auto. now f_equal.
    + now exists [].
Qed.

Lemma dropWhile_app_all f a b :
  forallb f a = true -> dropWhile f (a ++ b) = dropWhile f b.
Proof.
  induction a as [|c a IH]; simpl; auto.
  intros H. apply andb_true_iff in H as [Hc Ha]. rewrite Hc. auto.
Qed.

Lemma fenceAt_spec t : fenceAt t = true <-> exists r, t = lit "```" ++ r.
Proof.
  unfold fenceAt. split.
  - intros H. eexists. now apply startsWith_skipn.
  - intros (r & ->). apply startsWith_app.
Qed.

Lemma quoteAt_spec t :
  quoteAt t = true <-> exists w r, t = ch ">" :: w :: r /\ is_ws w = true.
Proof.
  unfold quoteAt. split.
  - destruct t as [|c [|w r]]; try discriminate.
    intros H. apply andb_true_iff in H as [Hc Hw].
    apply N.eqb_eq in Hc. subst c. now exists w, r.
  - intros (w & r & -> & Hw). now rewrite N.eqb_refl, Hw.
Qed.

Lemma bulletAt_spec t :
  bulletAt t = true <->
  exists c w r, t = c :: w :: r /\ In c [ch "-"; ch "*"; ch "+"]
                /\ is_ws w = true.
Proof.
  unfold bulletAt. split.
  - destruct t as [|c [|w r]]; try discriminate.
    intros H. apply andb_true_iff in H as [Hc Hw].
    exists c, w, r. repeat split; auto.
    repeat (apply orb_true_iff in Hc as [Hc | Hc]);
      apply N.eqb_eq in Hc; subst c; simpl; auto.
  - intros (c & w & r & -> & Hin & Hw). rewrite Hw.
    destruct Hin as [<- | [<- | [<- | []]]]; reflexivity.
Qed.

Lemma orderedAt_spec t :
  orderedAt t = true <->
  exists ds r, t = ds ++ ch "." :: r /\ ds <> []
               /\ forallb is_digit ds = true.
Proof.
  unfold orderedAt. split.
  - destruct t as [|c r]; try discriminate.
    intros H. apply andb_true_iff in H as [Hc Hd].
    destruct (dropWhile_split is_digit r) as (a & E & Ha).
    destruct (dropWhile is_digit r) as [|d l]; try discriminate.
    apply N.eqb_eq in Hd. subst d.
    exists (c :: a), l. simpl. rewrite Hc, Ha. repeat split.
    + now f_equal.
    + discriminate.
  - intros (ds & r & -> & Hne & Hds).
    destruct ds as [|d ds]; [congruence |]. simpl in *.
    apply andb_true_iff in Hds as [Hd Hds]. rewrite Hd.
    now rewrite dropWhile_app_all.
Qed.

Lemma markerAt_spec t :
  fenceAt t || quoteAt t || bulletAt t || orderedAt t = true
  <-> BodyMarker t.
Proof.
  split.
  - intros H. repeat (apply orb_true_iff in H as [H | H]).
    + apply fenceAt_spec in H as (r & ->). constructor.
    + apply quoteAt_spec in H as (w & r & -> & Hw). now constructor.
    + apply bulletAt_spec in H as (c & w & r & -> & Hc & Hw).
      now constructor.
    + apply orderedAt_spec in H as (ds & r & -> & Hne & Hds).
      now constructor.
  - intros H. destruct H as [r | w r Hw | c w r Hc Hw | ds r Hne Hds].
    + assert (E : fenceAt (lit "```" ++ r) = true)
        by (apply fenceAt_spec; now exists r).
      now rewrite E.
    + assert (E : quoteAt (ch ">" :: w :: r) = true)
        by (apply quoteAt_spec; now exists w, r).
      rewrite E. now rewrite orb_true_r.
    + assert (E : bulletAt (c :: w :: r) = true)
        by (apply bulletAt_spec; now exists c, w, r).
      rewrite E. now rewrite orb_true_r.
    + assert (E : orderedAt (ds ++ ch "." :: r) = true)
        by (apply orderedAt_spec; now exists ds, r).
      rewrite E. now rewrite orb_true_r.
Qed.

Lemma isLikelyBodyStart_spec line :
  isLikelyBodyStart line = true <->
  trim line = [] \/ BodyMarker (trim line).
Proof.
  unfold isLikelyBodyStart. rewrite <- markerAt_spec.
  destruct (isEmpty (trim line)) eqn:E.
  - apply isEmpty_nil in E. tauto.
  - assert (trim line <> []) by (intros H; apply isEmpty_nil in H; congruence).
    destruct (fenceAt _ || quoteAt _ || bulletAt _ || orderedAt _);
      split; auto; intros [? | ?]; congruence.
Qed.

Lemma isLikelyBodyStart_trim line :
  isLikelyBodyStart (trim line) = isLikelyBodyStart line.
Proof. unfold isLikelyBodyStart. now rewrite trim_idem. Qed.

(* ================================================================== *)
(** ** The block segmenter *)

Lemma headerLineOf_firstLineOf block :
  headerLineOf block = trim (firstLineOf block).
Proof.
  unfold headerLineOf, firstLineOf, blockLines, split.
  destruct (splitWith_nonempty (cut [nl]) (length block) block)
    as (x & xs & E).
  now rewrite E.
Qed.

Lemma body_or_empty b : (if nonEmpty b then b else []) = b.
Proof. now destruct b. Qed.

(** The first two branches of [parseBlock]. *)
Lemma parseBlock_bodyStart block :
  isLikelyBodyStart (firstLineOf block) = true ->
  parseBlock block = bodyOnly block.
Proof.
  intros H. unfold parseBlock.
  now rewrite headerLineOf_firstLineOf, isLikelyBodyStart_trim, H.
Qed.

Lemma parseBlock_header block :
  isLikelyBodyStart (firstLineOf block) = false ->
  parseBlock block =
  let h := parseHeader (headerLineOf block) in
  if negb (truthy (h_date h)) && negb (truthy (h_title h))
     && isEmpty (bodyLinesOf block)
  then bodyOnly block
  else mkEntry (h_date h) (h_title h) (bodyLinesOf block).
Proof.
  intros H. unfold parseBlock.
  rewrite body_or_empty.
  rewrite headerLineOf_firstLineOf at 1.
  now rewrite isLikelyBodyStart_trim, H.
Qed.

Lemma parseTimelineSource_blocks source :
  parseTimelineSource source = map parseBlock (blocksOf (trim source)).
Proof.
  unfold parseTimelineSource. destruct (isEmpty (trim source)) eqn:E; auto.
  apply isEmpty_nil in E. now rewrite E.
Qed.

(** A block of the segmenter is not empty and starts with a character that is
    not white space, and so does its first line. *)
Lemma blocksOf_shape t block :
  In block (blocksOf t) ->
  exists c r, block = c :: r /\ is_ws c = false.
Proof.
  unfold blocksOf. intros H. apply filter_In in H as [H Hne].
  apply in_map_iff in H as (x & <- & _).
  destruct (trim_cases x) as [E | (c & r & Hc & _ & E)]; rewrite E in *.
  - discriminate.
  - now exists c, (trimEnd r).
Qed.

Lemma firstLineOf_shape c r :
  is_ws c = false -> exists l, firstLineOf (c :: r) = c :: l.
Proof.
  intros Hc. unfold firstLineOf, blockLines.
  destruct (cut [nl] (c :: r)) as [[p q]|] eqn:C.
  - assert (Hnl : [nl] <> []) by discriminate.
    destruct (split_Some _ _ _ _ Hnl C) as (rest & E & _ & _). rewrite E.
    destruct (cut_Some _ _ _ _ C) as [Hs _].
    destruct p as [|c' p']; inversion Hs; subst; [discriminate |].
    now exists p'.
  - rewrite (split_None _ _ C). now exists r.
Qed.

Lemma BodyMarker_MarkupMarker t : BodyMarker t -> MarkupMarker t.
Proof.
  intros [r | w r Hw | c w r Hc Hw | ds r Hne Hds]; now constructor.
Qed.

(** C3, amended.  [isLikelyBodyStart] answers true exactly when the trimmed
    line is empty or begins with a code fence, with a block-quote marker
    followed by a white-space character, with an unordered-list marker
    followed by a white-space character, or with an ordered-list marker
    (digits and a period, with nothing asked of what follows).  A line it
    takes for body is thus empty or begins with one of the four markers, but
    not every line that begins with a block-quote or a list marker is taken
    for body.  When it answers true for the first line of a block, the
    segmenter emits the block unchanged as [{body: block}], with no header
    extraction. *)
Theorem bodyStart_classifier :
  (forall line,
      isLikelyBodyStart line = true <->
      trim line = [] \/ BodyMarker (trim line))
  /\ (forall line,
      isLikelyBodyStart line = true ->
      trim line = [] \/ MarkupMarker (trim line))
  /\ (forall block,
      isLikelyBodyStart (firstLineOf block) = true ->
      parseBlock block = bodyOnly block).
Proof.
  split; [|split].
  - exact isLikelyBodyStart_spec.
  - intros line H. apply isLikelyBodyStart_spec in H as [H | H]; auto.
    right. now apply BodyMarker_MarkupMarker.
  - exact parseBlock_bodyStart.
Qed.

Lemma bodyStart_classifier_witness :
  isLikelyBodyStart (lit "  - item one") = true
  /\ (trim (lit "1.5 | Release") = []
      \/ MarkupMarker (trim (lit "1.5 | Release")))
  /\ parseTimelineSource (lit "- item one" ++ nl :: lit "- item two")
     = [bodyOnly (lit "- item one" ++ nl :: lit "- item two")].
Proof.
  destruct bodyStart_classifier as (Hc & Hm & Hb). split; [|split].
  - apply Hc. right.
    exact (UnorderedList (ch "-") (ch " ") (lit "item one")
             (or_introl eq_refl) eq_refl).
  - apply Hm. reflexivity.
  - rewrite parseTimelineSource_blocks.
    change (blocksOf (trim (lit "- item one" ++ nl :: lit "- item two")))
      with [lit "- item one" ++ nl :: lit "- item two"].
    cbn [map]. apply (f_equal (fun e => [e])). apply Hb. reflexivity.
Defined.

(** C3 as stated fails at the lines [>note] and [-item]: each begins with a
    marker, a block-quote marker and an unordered-list marker, and is not
    empty, yet [isLikelyBodyStart] answers false, because no white space
    follows the marker. *)
Lemma bodyStart_classifier_counterexample :
  MarkupMarker (trim (lit ">note"))
  /\ isLikelyBodyStart (lit ">note") = false
  /\ MarkupMarker (trim (lit "-item"))
  /\ isLikelyBodyStart (lit "-item") = false
  /\ ~ (forall line,
          isLikelyBodyStart line = true <->
          trim line = [] \/ MarkupMarker (trim line)).
Proof.
  assert (Q : MarkupMarker (trim (lit ">note")))
    by exact (MarkupQuote (lit "note")).
  assert (B : MarkupMarker (trim (lit "-item")))
    by exact (MarkupBullet (ch "-") (lit "item") (or_introl eq_refl)).
  repeat split; auto.
  intros H. specialize (H (lit ">note")).
  apply proj2 in H. specialize (H (or_intror Q)). discriminate H.
Qed.



(** C4. Fallback safety.  For a block whose first line is not a body start:
    if [parseHeader] finds neither a date nor a title in the header line and
    the remaining lines, rejoined and trimmed, are empty, the entry is
    [{body: block}], the block verbatim.  The header line is the first line
    trimmed; for the blocks of the segmenter the same holds when
    [parseHeader] is read on the first line as it stands. *)
Theorem fallback_safety :
  (forall block,
      isLikelyBodyStart (firstLineOf block) = false ->
      parseHeader (headerLineOf block) = mkHeader None None ->
      bodyLinesOf block = [] ->
      parseBlock block = bodyOnly block /\ body (parseBlock block) = block)
  /\ (forall source block,
      In block (blocksOf (trim source)) ->
      isLikelyBodyStart (firstLineOf block) = false ->
      parseHeader (firstLineOf block) = mkHeader None None ->
      bodyLinesOf block = [] ->
      parseBlock block = bodyOnly block
      /\ body (parseBlock block) = block
      /\ In (bodyOnly block) (parseTimelineSource source)).
Proof.
  assert (A : forall block,
             isLikelyBodyStart (firstLineOf block) = false ->
             parseHeader (headerLineOf block) = mkHeader None None ->
             bodyLinesOf block = [] ->
             parseBlock block = bodyOnly block).
  { intros block Hb Hh Hl. rewrite parseBlock_header by assumption.
    now rewrite Hh, Hl. }
  split.
  - intros block Hb Hh Hl. rewrite (A block Hb Hh Hl). now split.
  - intros source block Hin Hb Hh Hl.
    assert (E : parseBlock block = bodyOnly block).
    { apply A; auto. rewrite headerLineOf_firstLineOf.
      destruct (blocksOf_shape _ _ Hin) as (c & r & -> & Hc).
      destruct (firstLineOf_shape c r Hc) as (l & El). rewrite El in *.
      now rewrite (parseHeader_none_nonblank c l Hc Hh). }
    rewrite E. repeat split.
    rewrite parseTimelineSource_blocks, <- E. now apply in_map.
Qed.

Lemma fallback_safety_witness :
  parseBlock (lit "|") = bodyOnly (lit "|")
  /\ In (bodyOnly (lit "|"))
       (parseTimelineSource (lit "a | b" ++ [nl; nl] ++ lit "|  ")).
Proof.
  destruct fallback_safety as [Ha Hb]. split.
  - apply (Ha (lit "|")); reflexivity.
  - apply (Hb (lit "a | b" ++ [nl; nl] ++ lit "|  ") (lit "|"));
      try reflexivity.
    right. left. reflexivity.
Defined.

(** White space around the source does not matter. *)
Lemma parseTimelineSource_trim source :
  parseTimelineSource (trim source) = parseTimelineSource source.
Proof. now rewrite !parseTimelineSource_blocks, trim_idem. Qed.

(** What [parseBlock] makes of a block that is not empty. *)
Lemma parseBlock_invariant block :
  nonEmpty block = true ->
  let e := parseBlock block in
  truthy (date e) || truthy (title e) || nonEmpty (body e) = true
  /\ (forall d, date e = Some d -> d <> [])
  /\ (forall t, title e = Some t -> t <> []).
Proof.
  intros Hne e. subst e.
  destruct (isLikelyBodyStart (firstLineOf block)) eqn:Hb.
  - rewrite parseBlock_bodyStart by assumption. simpl.
    repeat split; auto; discriminate.
  - rewrite parseBlock_header by assumption. cbv zeta.
    destruct (parseHeader_fields (headerLineOf block)) as [Hd Ht].
    destruct (negb (truthy (h_date (parseHeader (headerLineOf block))))
              && negb (truthy (h_title (parseHeader (headerLineOf block))))
              && isEmpty (bodyLinesOf block)) eqn:E; simpl.
    + repeat split; auto; discriminate.
    + repeat split; auto.
      rewrite nonEmpty_isEmpty.
      destruct (truthy (h_date _)), (truthy (h_title _)),
        (isEmpty (bodyLinesOf block)); auto.
Qed.

(** C5. Every entry the segmenter produces has a non-empty date, title or
    body, and a date or a title that is present is not the empty string. *)
Theorem segmenter_invariant (source : jsstring) (e : TimelineEntry) :
  In e (parseTimelineSource source) ->
  truthy (date e) || truthy (title e) || nonEmpty (body e) = true
  /\ (forall d, date e = Some d -> d <> [])
  /\ (forall t, title e = Some t -> t <> []).
Proof.
  rewrite parseTimelineSource_blocks. intros H.
  apply in_map_iff in H as (block & <- & Hin).
  apply parseBlock_invariant.
  unfold blocksOf in Hin. now apply filter_In in Hin.
Qed.

Lemma segmenter_invariant_witness :
  truthy None || truthy (Some (lit "c")) || nonEmpty (lit "d") = true
  /\ (forall d, @None jsstring = Some d -> d <> [])
  /\ (forall t, Some (lit "c") = Some t -> t <> []).
Proof.
  apply (segmenter_invariant
           (lit "a | b" ++ [nl; nl] ++ lit "c" ++ [nl] ++ lit "d")
           (mkEntry None (Some (lit "c")) (lit "d"))).
  right. left. reflexivity.
Defined.

(* ================================================================== *)
(** ** Escaping *)

Lemma replaceChar_app c r a b :
  replaceChar c r (a ++ b) = replaceChar c r a ++ replaceChar c r b.
Proof. apply flat_map_app. Qed.

Lemma escapeHtml_app a b : escapeHtml (a ++ b) = escapeHtml a ++ escapeHtml b.
Proof. unfold escapeHtml. now rewrite !replaceChar_app. Qed.

(** The cases of a code unit: one of the five reserved characters, or none
    of them. *)
Lemma reserved_cases (c : char) :
  c = ch "&" \/ c = ch "<" \/ c = ch ">" \/ c = dquote \/ c = ch "'"
  \/ ((c =? ch "&")%N = false /\ (c =? ch "<")%N = false
      /\ (c =? ch ">")%N = false /\ (c =? dquote)%N = false
      /\ (c =? ch "'")%N = false).
Proof.
  destruct (N.eqb_spec c (ch "&")); auto.
  destruct (N.eqb_spec c (ch "<")); auto.
  destruct (N.eqb_spec c (ch ">")); auto.
  destruct (N.eqb_spec c dquote); auto.
  destruct (N.eqb_spec c (ch "'")); auto 10.
Qed.

Ltac reserved_cases c :=
  destruct (reserved_cases c)
    as [-> | [-> | [-> | [-> | [-> | (?Ha & ?Hl & ?Hg & ?Hd & ?Hs)]]]]].

Lemma escapeHtml_single c : escapeHtml [c] = escapeChar c.
Proof.
  reserved_cases c; try reflexivity.
  unfold escapeHtml, replaceChar, escapeChar.
  cbn [flat_map app]. rewrite Ha. cbn [flat_map app]. rewrite Hl.
  cbn [flat_map app]. rewrite Hg. cbn [flat_map app]. rewrite Hd.
  cbn [flat_map app]. now rewrite Hs.
Qed.

Lemma escapeHtml_cons c s : escapeHtml (c :: s) = escapeChar c ++ escapeHtml s.
Proof.
  change (c :: s) with ([c] ++ s).
  now rewrite escapeHtml_app, escapeHtml_single.
Qed.

Lemma escapeHtml_flat_map s : escapeHtml s = flat_map escapeChar s.
Proof.
  induction s as [|c s IH]; [reflexivity |].
  rewrite escapeHtml_cons, IH. reflexivity.
Qed.

Lemma entityAt_plain c r : (c =? ch "&")%N = false -> entityAt (c :: r) = None.
Proof.
  intros H. unfold entityAt. cbn [find entities fst startsWith lit map
    String.list_ascii_of_string].
  rewrite N.eqb_sym in H. now rewrite H.
Qed.

Lemma decodeFrom_escapeChar c rest :
  decodeFrom 0 (escapeChar c ++ rest) = c :: decodeFrom 0 rest.
Proof.
  reserved_cases c; try reflexivity.
  unfold escapeChar. rewrite Ha, Hl, Hg, Hd, Hs.
  cbn [app decodeFrom]. now rewrite entityAt_plain.
Qed.

Lemma noRawReserved_escapeChar c rest :
  noRawReserved (escapeChar c ++ rest) = noRawReserved rest.
Proof.
  reserved_cases c; try reflexivity.
  unfold escapeChar. rewrite Ha, Hl, Hg, Hd, Hs.
  cbn [app noRawReserved]. now rewrite Ha, Hl, Hg, Hd, Hs.
Qed.

(** C8. [escapeHtml] makes the five substitutions in the order [&], [<],
    [>], double quote, single quote, and the static renderer embeds the date
    and the title through it.  The escaped text holds no raw reserved
    character: none of [<], [>] and the quotes, and no [&] but the one that
    starts an entity.  Decoding the five entities gives the original text
    back, for every string. *)
Theorem escapeHtml_roundtrip (value : jsstring) :
  escapeHtml value
  = replaceChar (ch "'") (lit "&#39;")
      (replaceChar dquote (lit "&quot;")
        (replaceChar (ch ">") (lit "&gt;")
          (replaceChar (ch "<") (lit "&lt;")
            (replaceChar (ch "&") (lit "&amp;") value))))
  /\ Markup.dateSpan value
     = Markup.spanOpen "timeline-date" ++ escapeHtml value ++ lit "</span>"
  /\ Markup.titleSpan value
     = Markup.spanOpen "timeline-title" ++ escapeHtml value ++ lit "</span>"
  /\ escapeHtml value = flat_map escapeChar value
  /\ noRawReserved (escapeHtml value) = true
  /\ decodeHtml (escapeHtml value) = value.
Proof.
  repeat split; try reflexivity.
  - apply escapeHtml_flat_map.
  - induction value as [|c s IH]; [reflexivity |].
    now rewrite escapeHtml_cons, noRawReserved_escapeChar.
  - unfold decodeHtml. induction value as [|c s IH]; [reflexivity |].
    now rewrite escapeHtml_cons, decodeFrom_escapeChar, IH.
Qed.

Example escapeHtml_title :
  escapeHtml (lit "<b>" ++ dquote :: lit "x" ++ dquote :: lit "</b>")
  = lit "&lt;b&gt;&quot;x&quot;&lt;/b&gt;"
  /\ decodeHtml (lit "&lt;b&gt;&quot;x&quot;&lt;/b&gt;")
     = lit "<b>" ++ dquote :: lit "x" ++ dquote :: lit "</b>"
  /\ escapeHtml (lit "a & b &amp; c") = lit "a &amp; b &amp;amp; c".
Proof. repeat split. Qed.

(* ================================================================== *)
(** ** The renderers *)

Section RenderingFacts.

Variable Rendered : Type.
Variable renderMarkdown : jsstring -> jsstring -> option Rendered.
Variable innerHTML : Rendered -> jsstring.

(** C6. The empty string and every string of white space parse to the empty
    sequence of entries.  For the empty sequence each renderer emits the
    empty indicator with the message "No timeline entries found." and
    nothing else: no start marker, no item, no marker. *)
Theorem empty_input (source sourcePath : jsstring)
    (settings : TimelinePluginSettings) :
  forallb is_ws source = true ->
  parseTimelineSource source = []
  /\ renderTimelineEntries renderMarkdown [] sourcePath settings
     = Some [El div "timeline-empty" []
               [Text (lit "No timeline entries found.")]]
  /\ renderTimelineHtmlSegments renderMarkdown innerHTML source settings
       sourcePath
     = Some [Markup.timelineOpen; Markup.emptyBlock]
  /\ renderTimelineHtml renderMarkdown innerHTML source settings sourcePath
     = Some (Markup.divOpen "timeline"
             ++ Markup.divOpen "timeline-empty"
             ++ lit "No timeline entries found.</div></div>").
Proof.
  intros Hws.
  assert (E : parseTimelineSource source = []).
  { unfold parseTimelineSource. now rewrite (trim_all_ws _ Hws). }
  repeat split; auto.
  - unfold renderTimelineHtmlSegments. now rewrite E.
  - unfold renderTimelineHtml, renderTimelineHtmlSegments. rewrite E.
    cbn [length Nat.eqb option_map concat app].
    unfold Markup.timelineOpen, Markup.emptyBlock.
    now rewrite app_nil_r.
Qed.

End RenderingFacts.

Lemma empty_input_witness :
  parseTimelineSource [] = []
  /\ parseTimelineSource (lit "   " ++ [nl; nl] ++ lit "  ") = []
  /\ renderTimelineHtml paragraphRenderer (fun r => r)
       (lit "   " ++ [nl; nl] ++ lit "  ") DEFAULT_SETTINGS (lit "note.md")
     = Some (lit "<div class=" ++ dquote :: lit "timeline" ++ dquote
             :: lit "><div class=" ++ dquote :: lit "timeline-empty"
             ++ dquote :: lit ">No timeline entries found.</div></div>").
Proof.
  split; [|split].
  - apply (empty_input _ paragraphRenderer (fun r => r) [] [] DEFAULT_SETTINGS).
    reflexivity.
  - apply (empty_input _ paragraphRenderer (fun r => r)
             (lit "   " ++ [nl; nl] ++ lit "  ") [] DEFAULT_SETTINGS).
    reflexivity.
  - apply (empty_input _ paragraphRenderer (fun r => r)
             (lit "   " ++ [nl; nl] ++ lit "  ") (lit "note.md")
             DEFAULT_SETTINGS).
    reflexivity.
Defined.

(* ------------------------------------------------------------------ *)
(** *** Markers

    The markers are counted in what a render returns: the opening tags in
    the string of the static renderer, the elements in the tree of the live
    renderer, the rendered bodies included. *)

Lemma list_sum_cons x l : list_sum (x :: l) = x + list_sum l.
Proof. reflexivity. Qed.

Lemma Some_eq {A : Type} (x y : A) : Some x = Some y -> x = y.
Proof. now intros [= ->]. Qed.

Lemma Counts_nil pat : Counts pat [] 0.
Proof. intros t. reflexivity. Qed.

Lemma Counts_app pat x y j k :
  Counts pat x j -> Counts pat y k -> Counts pat (x ++ y) (j + k).
Proof. intros Hx Hy t. rewrite <- app_assoc, Hx, Hy. lia. Qed.

Lemma Counts_app0 pat x y :
  Counts pat x 0 -> Counts pat y 0 -> Counts pat (x ++ y) 0.
Proof. intros Hx Hy. exact (Counts_app _ _ _ _ _ Hx Hy). Qed.

Lemma Counts_eq pat x j k : Counts pat x j -> j = k -> Counts pat x k.
Proof. now intros H <-. Qed.

Lemma Counts_total pat x k : Counts pat x k -> occurrences pat x = k.
Proof.
  intros H. specialize (H []). rewrite app_nil_r in H.
  cbn [occurrences] in H. lia.
Qed.

(** A tag does not start in a text without [<]. *)
Lemma Counts_without p' x :
  ~ In (ch "<") x -> Counts (ch "<" :: p') x 0.
Proof.
  induction x as [|c x IH]; intros Hx t; [reflexivity |].
  cbn [app occurrences startsWith].
  rewrite IH by (intros H; apply Hx; now right).
  destruct (N.eqb_spec (ch "<") c) as [E|E]; [|reflexivity].
  exfalso. apply Hx. left. now symmetry.
Qed.

Lemma escapeChar_no_lt c : ~ In (ch "<") (escapeChar c).
Proof.
  intros H. unfold escapeChar in H.
  destruct (c =? ch "&")%N; [vm_compute in H; intuition discriminate |].
  destruct (N.eqb_spec c (ch "<")) as [E|E];
    [vm_compute in H; intuition discriminate |].
  destruct (c =? ch ">")%N; [vm_compute in H; intuition discriminate |].
  destruct (c =? dquote)%N; [vm_compute in H; intuition discriminate |].
  destruct (c =? ch "'")%N; [vm_compute in H; intuition discriminate |].
  destruct H as [H|[]]. now apply E.
Qed.

Lemma escapeHtml_no_lt value : ~ In (ch "<") (escapeHtml value).
Proof.
  rewrite escapeHtml_flat_map, in_flat_map. intros (c & _ & H).
  exact (escapeChar_no_lt c H).
Qed.

(** Where a [<] follows the text [u], a pattern without [<] matches at the
    start of [u] as it does with nothing after [u]. *)
Lemma startsWith_boundary p u t :
  ~ In (ch "<") p -> startsWith p (u ++ ch "<" :: t) = startsWith p u.
Proof.
  revert u. induction p as [|a p IH]; intros u Hp; [now destruct u |].
  destruct u as [|b u]; cbn [app startsWith].
  - destruct (N.eqb_spec a (ch "<")) as [E|E]; [|reflexivity].
    exfalso. apply Hp. now left.
  - rewrite IH; [reflexivity |]. intros H. apply Hp. now right.
Qed.

Lemma occurrences_boundary p0 p' h t :
  ~ In (ch "<") p' ->
  occurrences (p0 :: p') (h ++ ch "<" :: t)
  = occurrences (p0 :: p') h + occurrences (p0 :: p') (ch "<" :: t).
Proof.
  intros Hp. induction h as [|c h IH]; [reflexivity |].
  cbn [app]. cbn [occurrences startsWith] in *.
  rewrite (startsWith_boundary _ _ _ Hp). lia.
Qed.

Lemma startMarkerTag_profile : Profile startMarkerTag 1 0 0.
Proof. repeat split; intros t; reflexivity. Qed.

Lemma markerTag_profile : Profile markerTag 0 0 1.
Proof. repeat split; intros t; reflexivity. Qed.

Lemma itemTag_profile : Profile itemTag 0 1 0.
Proof. repeat split; intros t; reflexivity. Qed.

Ltac tag_shape :=
  eexists; split; [reflexivity |];
  let H := fresh "H" in intros H; vm_compute in H; intuition discriminate.

Lemma startMarkerTag_shape :
  exists p', startMarkerTag = ch "<" :: p' /\ ~ In (ch "<") p'.
Proof. tag_shape. Qed.

Lemma markerTag_shape :
  exists p', markerTag = ch "<" :: p' /\ ~ In (ch "<") p'.
Proof. tag_shape. Qed.

Lemma itemTag_shape :
  exists p', itemTag = ch "<" :: p' /\ ~ In (ch "<") p'.
Proof. tag_shape. Qed.

Section TagCounts.

Variable Rendered : Type.
Variable renderMarkdown : jsstring -> jsstring -> option Rendered.
Variable innerHTML : Rendered -> jsstring.

(** An opening tag [pat] and its occurrences in the renderer's own
    markup. *)
Variable pat : jsstring.
Variables kStart kItem kMarker : nat.
Hypothesis pat_tag : exists p', pat = ch "<" :: p' /\ ~ In (ch "<") p'.
Hypothesis pat_profile : Profile pat kStart kItem kMarker.

Ltac profile :=
  let P := fresh "P" in
  pose proof pat_profile as P; unfold Profile in P;
  destruct P as (Popen & Pempty & Pstart & Pitem & Pmarker & Pcontent
                 & Pmeta & Pdate & Ptitle & Pspan & Pbody & Pclose
                 & Pitemclose).

Lemma Counts_escapeHtml value : Counts pat (escapeHtml value) 0.
Proof.
  destruct pat_tag as (p' & E & _). rewrite E.
  apply Counts_without, escapeHtml_no_lt.
Qed.

Lemma Counts_dateSpan d : Counts pat (Markup.dateSpan d) 0.
Proof.
  profile. unfold Markup.dateSpan.
  apply Counts_app0; [exact Pdate |].
  apply Counts_app0; [apply Counts_escapeHtml | exact Pspan].
Qed.

Lemma Counts_titleSpan t : Counts pat (Markup.titleSpan t) 0.
Proof.
  profile. unfold Markup.titleSpan.
  apply Counts_app0; [exact Ptitle |].
  apply Counts_app0; [apply Counts_escapeHtml | exact Pspan].
Qed.

Lemma Counts_whenTruthy o f :
  (forall s, Counts pat (f s) 0) -> Counts pat (concat (whenTruthy o f)) 0.
Proof.
  intros H. unfold whenTruthy.
  destruct o as [s|]; [destruct (nonEmpty s) |]; cbn [concat];
    try apply Counts_nil.
  rewrite app_nil_r. apply H.
Qed.

Lemma Counts_htmlMeta settings entry :
  Counts pat (concat (htmlMeta settings entry)) 0.
Proof.
  profile. unfold htmlMeta. destruct (_ || _); [|apply Counts_nil].
  rewrite !concat_app. cbn [concat]. rewrite !app_nil_r.
  apply Counts_app0; [exact Pmeta |].
  apply Counts_app0; [apply Counts_whenTruthy, Counts_dateSpan |].
  apply Counts_app0; [apply Counts_whenTruthy, Counts_titleSpan |].
  exact Pclose.
Qed.

(** The body block holds the occurrences of its content and no other: the
    closing tag after the content starts with [<]. *)
Lemma Counts_bodyBlock h :
  Counts pat (Markup.bodyBlock h) (occurrences pat h).
Proof.
  profile. destruct pat_tag as (p' & E & Hp'). intros t.
  assert (B : occurrences pat (h ++ ch "<" :: lit "/div>" ++ t)
              = occurrences pat h
                + occurrences pat (ch "<" :: lit "/div>" ++ t))
    by (rewrite E; apply occurrences_boundary; exact Hp').
  unfold Markup.bodyBlock. rewrite <- !app_assoc, Pbody.
  change (lit "</div>" ++ t) with (ch "<" :: lit "/div>" ++ t).
  rewrite B.
  change (ch "<" :: lit "/div>" ++ t) with (Markup.divClose ++ t).
  rewrite Pclose. lia.
Qed.

Lemma Counts_htmlBody sourcePath entry segs :
  htmlBody renderMarkdown innerHTML sourcePath entry = Some segs ->
  Counts pat (concat segs)
    (occurrences pat
       (renderedBodyHtml renderMarkdown innerHTML sourcePath entry)).
Proof.
  unfold htmlBody, renderedBodyHtml, bodyContent, andThen.
  destruct (nonEmpty (trim (body entry))).
  - destruct (renderMarkdown _ _) as [host|]; [|discriminate].
    intros H. inversion H; subst; clear H.
    destruct (trim (innerHTML host)) as [|c h]; [exact (Counts_nil pat) |].
    change (Counts pat (Markup.bodyBlock (c :: h) ++ [])
              (occurrences pat (c :: h))).
    rewrite app_nil_r. apply Counts_bodyBlock.
  - intros H. inversion H. exact (Counts_nil pat).
Qed.

Lemma Counts_htmlItem settings sourcePath entry item :
  htmlItem renderMarkdown innerHTML settings sourcePath entry = Some item ->
  Counts pat (concat item)
    (kItem + (if showMarkers settings then kMarker else 0)
     + occurrences pat
         (renderedBodyHtml renderMarkdown innerHTML sourcePath entry)).
Proof.
  profile. unfold htmlItem, andThen.
  destruct (htmlBody _ _ _ _) as [bodySegments|] eqn:B; [|discriminate].
  intros H. inversion H; subst; clear H.
  apply Counts_htmlBody in B.
  destruct (showMarkers settings); cbn [app concat];
    rewrite !concat_app; cbn [concat]; rewrite app_nil_r;
    eapply Counts_eq.
  - eapply Counts_app; [exact Pitem |].
    eapply Counts_app; [exact Pmarker |].
    eapply Counts_app; [exact Pcontent |].
    eapply Counts_app; [apply Counts_htmlMeta |].
    eapply Counts_app; [exact B | exact Pitemclose].
  - lia.
  - eapply Counts_app; [exact Pitem |].
    eapply Counts_app; [exact Pcontent |].
    eapply Counts_app; [apply Counts_htmlMeta |].
    eapply Counts_app; [exact B | exact Pitemclose].
  - lia.
Qed.

Lemma Counts_htmlItems settings sourcePath entries segs :
  htmlItems renderMarkdown innerHTML settings sourcePath entries = Some segs ->
  Counts pat (concat segs)
    (length entries * (kItem + (if showMarkers settings then kMarker else 0))
     + inBodies renderMarkdown innerHTML sourcePath pat entries).
Proof.
  revert segs. induction entries as [|entry rest IH]; intros segs;
    cbn [htmlItems]; unfold andThen.
  - intros H. inversion H. exact (Counts_nil pat).
  - destruct (htmlItem _ _ _ _ entry) as [item|] eqn:I; [|discriminate].
    destruct (htmlItems _ _ _ _ rest) as [more|]; [|discriminate].
    intros H. inversion H; subst; clear H.
    rewrite concat_app. eapply Counts_eq.
    + eapply Counts_app; [exact (Counts_htmlItem _ _ _ _ I) |].
      exact (IH more eq_refl).
    + unfold inBodies. cbn [map length Nat.mul]. rewrite list_sum_cons. lia.
Qed.

Lemma occurrences_empty source settings sourcePath html :
  parseTimelineSource source = [] ->
  renderTimelineHtml renderMarkdown innerHTML source settings sourcePath
  = Some html ->
  occurrences pat html = 0.
Proof.
  profile. intros P. unfold renderTimelineHtml, renderTimelineHtmlSegments.
  rewrite P. cbn [length Nat.eqb option_map app concat].
  intros H. apply Some_eq in H. subst html.
  apply Counts_total.
  apply Counts_app0; [exact Popen |].
  apply Counts_app0; [exact Pempty | apply Counts_nil].
Qed.

Lemma occurrences_renderTimelineHtml source settings sourcePath html :
  parseTimelineSource source <> [] ->
  renderTimelineHtml renderMarkdown innerHTML source settings sourcePath
  = Some html ->
  occurrences pat html
  = (if showMarkers settings then kStart else 0)
    + length (parseTimelineSource source)
      * (kItem + (if showMarkers settings then kMarker else 0))
    + inBodies renderMarkdown innerHTML sourcePath pat
        (parseTimelineSource source).
Proof.
  profile. intros Hne.
  unfold renderTimelineHtml, renderTimelineHtmlSegments, andThen.
  destruct (parseTimelineSource source) as [|e es]; [congruence |].
  cbn [length Nat.eqb].
  destruct (htmlItems _ _ _ _ (e :: es)) as [items|] eqn:I; [|discriminate].
  cbn [option_map]. intros H. apply Some_eq in H. subst html.
  apply Counts_htmlItems in I. apply Counts_total.
  destruct (showMarkers settings); cbn [app concat];
    rewrite concat_app; cbn [concat]; rewrite app_nil_r;
    eapply Counts_eq.
  - eapply Counts_app; [exact Popen |].
    eapply Counts_app; [exact Pstart |].
    eapply Counts_app; [exact I | exact Pclose].
  - cbn [length]. lia.
  - eapply Counts_app; [exact Popen |].
    eapply Counts_app; [exact I | exact Pclose].
  - cbn [length]. lia.
Qed.

(** The markup of the items one after the other, each with its marker, if
    any, before its content. *)
Lemma htmlItems_markup settings sourcePath entries segs :
  htmlItems renderMarkdown innerHTML settings sourcePath entries = Some segs ->
  exists items,
    concat segs = concat items
    /\ Forall2
         (fun (entry : TimelineEntry) item =>
            exists rest,
              item = Markup.itemOpen
                     ++ (if showMarkers settings then Markup.marker else [])
                     ++ Markup.contentOpen ++ rest)
         entries items.
Proof.
  revert segs. induction entries as [|entry rest IH]; intros segs;
    cbn [htmlItems]; unfold andThen.
  - intros H. apply Some_eq in H. subst segs.
    exists []. split; [reflexivity | constructor].
  - destruct (htmlItem _ _ _ _ entry) as [item|] eqn:I; [|discriminate].
    destruct (htmlItems _ _ _ _ rest) as [more|]; [|discriminate].
    intros H. apply Some_eq in H. subst segs.
    destruct (IH more eq_refl) as (items & E & Hall).
    exists (concat item :: items). split.
    + rewrite concat_app, E. reflexivity.
    + constructor; [|exact Hall].
      revert I. unfold htmlItem, andThen.
      destruct (htmlBody _ _ _ _) as [bodySegments|]; [|discriminate].
      intros H. apply Some_eq in H. subst item.
      exists (concat (htmlMeta settings entry ++ bodySegments
                      ++ [Markup.itemClose])).
      destruct (showMarkers settings); cbn [app concat];
        rewrite !concat_app; reflexivity.
Qed.

End TagCounts.

Section ClassCounts.

Variable Rendered : Type.
Variable renderMarkdown : jsstring -> jsstring -> option Rendered.

(** The elements of a class in the content the host put into a body. *)
Variable inProse : String.string -> Rendered -> nat.

Lemma countClassInWith_app c (a b : list (Node Rendered)) :
  countClassInWith inProse c (a ++ b)
  = countClassInWith inProse c a + countClassInWith inProse c b.
Proof. unfold countClassInWith. now rewrite map_app, list_sum_app. Qed.

Lemma liveItem_countWith c settings sourcePath entry item :
  In c ["timeline-start-marker"; "timeline-marker"; "timeline-item"]%string ->
  liveItem renderMarkdown settings sourcePath entry = Some item ->
  countClassWith inProse c item
  = (if String.eqb "timeline-item" c then 1 else 0)
    + (if showMarkers settings
       then if String.eqb "timeline-marker" c then 1 else 0
       else 0)
    + match bodyContent renderMarkdown sourcePath entry with
      | Some host => inProse c host
      | None => 0
      end.
Proof.
  intros Hc.
  unfold liveItem, liveBody, liveMeta, whenTruthy, andThen, bodyContent.
  destruct (nonEmpty (trim (body entry)));
    [destruct (renderMarkdown _ _); [|discriminate] |];
    intros H; inversion H; subst; clear H;
    destruct (showMarkers settings);
    destruct (truthy (dateTextOf settings entry) || truthy (title entry));
    destruct (dateTextOf settings entry) as [d|]; try destruct (nonEmpty d);
    destruct (title entry) as [t|]; try destruct (nonEmpty t);
    destruct Hc as [<-|[<-|[<-|[]]]]; cbn; lia.
Qed.

Lemma liveItems_countWith c settings sourcePath entries out :
  In c ["timeline-start-marker"; "timeline-marker"; "timeline-item"]%string ->
  liveItems renderMarkdown settings sourcePath entries = Some out ->
  countClassInWith inProse c out
  = length entries
    * ((if String.eqb "timeline-item" c then 1 else 0)
       + (if showMarkers settings
          then if String.eqb "timeline-marker" c then 1 else 0
          else 0))
    + inProseOf inProse renderMarkdown sourcePath c entries.
Proof.
  intros Hc. revert out. induction entries as [|entry rest IH]; intros out;
    cbn [liveItems]; unfold andThen.
  - intros H. inversion H. reflexivity.
  - destruct (liveItem _ _ _ entry) as [item|] eqn:I; [|discriminate].
    destruct (liveItems _ _ _ rest) as [more|]; [|discriminate].
    intros H. inversion H; subst; clear H.
    unfold countClassInWith, inProseOf in *.
    cbn [map length Nat.mul]. rewrite !list_sum_cons.
    rewrite (IH more eq_refl), (liveItem_countWith _ _ _ _ _ Hc I). lia.
Qed.

Lemma renderTimelineEntries_countWith c entries sourcePath settings out :
  In c ["timeline-start-marker"; "timeline-marker"; "timeline-item"]%string ->
  entries <> [] ->
  renderTimelineEntries renderMarkdown entries sourcePath settings
  = Some out ->
  countClassInWith inProse c out
  = (if showMarkers settings
     then if String.eqb "timeline-start-marker" c then 1 else 0
     else 0)
    + length entries
      * ((if String.eqb "timeline-item" c then 1 else 0)
         + (if showMarkers settings
            then if String.eqb "timeline-marker" c then 1 else 0
            else 0))
    + inProseOf inProse renderMarkdown sourcePath c entries.
Proof.
  intros Hc Hne. unfold renderTimelineEntries, andThen.
  destruct entries as [|e es]; [congruence |]. cbn [length Nat.eqb].
  destruct (liveItems _ _ _ (e :: es)) as [items|] eqn:I; [|discriminate].
  intros H. inversion H; subst; clear H.
  rewrite countClassInWith_app, (liveItems_countWith _ _ _ _ _ Hc I).
  assert (S : countClassInWith inProse c
                (if showMarkers settings
                 then [El div "timeline-start-marker" ariaHidden []]
                 else [])
              = if showMarkers settings
                then if String.eqb "timeline-start-marker" c then 1 else 0
                else 0).
  { destruct (showMarkers settings); [|reflexivity].
    destruct Hc as [<-|[<-|[<-|[]]]]; reflexivity. }
  rewrite S. cbn [length]. lia.
Qed.

(** The live tree: the start marker, if any, then the items, each with its
    marker, if any, before its content. *)
Lemma renderTimelineEntries_shape entries sourcePath settings out :
  entries <> [] ->
  renderTimelineEntries renderMarkdown entries sourcePath settings
  = Some out ->
  exists items,
    out = (if showMarkers settings
           then [El div "timeline-start-marker" ariaHidden []] else [])
          ++ items
    /\ Forall2
         (fun entry item =>
            exists bodyEl,
              liveBody renderMarkdown sourcePath entry = Some bodyEl
              /\ item
                 = El div "timeline-item" []
                     ((if showMarkers settings
                       then [El div "timeline-marker" ariaHidden []]
                       else [])
                      ++ [El div "timeline-content" []
                            (liveMeta settings entry ++ [bodyEl])]))
         entries items.
Proof.
  intros Hne. unfold renderTimelineEntries, andThen.
  destruct entries as [|e es]; [congruence |]. cbn [length Nat.eqb].
  destruct (liveItems _ _ _ (e :: es)) as [items|] eqn:I; [|discriminate].
  intros H. inversion H; subst; clear H.
  exists items. split; [reflexivity |].
  clear Hne. revert items I. generalize (e :: es) as entries. clear e es.
  induction entries as [|entry rest IH]; intros items;
    cbn [liveItems]; unfold andThen.
  - intros H. inversion H. constructor.
  - destruct (liveItem _ _ _ entry) as [item|] eqn:I; [|discriminate].
    destruct (liveItems _ _ _ rest) as [more|]; [|discriminate].
    intros H. inversion H; subst; clear H.
    constructor; [|exact (IH more eq_refl)].
    revert I. unfold liveItem, andThen.
    destruct (liveBody _ _ _) as [bodyEl|]; [|discriminate].
    intros H. inversion H; subst; clear H.
    exists bodyEl. split; reflexivity.
Qed.

End ClassCounts.

Section MarkerToggle.

Variable Rendered : Type.
Variable renderMarkdown : jsstring -> jsstring -> option Rendered.
Variable innerHTML : Rendered -> jsstring.

(** C7, amended. The marker toggle, for a sequence of entries that is not
    empty, in what a successful render returns.  The live tree is the start
    marker, if [showMarkers] is true, then one item for each entry, each
    with its marker, if [showMarkers] is true, before its content; the
    returned string of the static renderer has the same order.  The
    renderer itself emits no marker with [showMarkers] false, and one start
    marker and one marker in each item with [showMarkers] true; the bodies
    are embedded as the host's renderer made them, so the output has, beside
    these, the markers of the rendered bodies: the elements of a marker
    class in the tree, whatever way [inProse] they are counted in a rendered
    body, and the opening tags of a marker in the returned string. *)
Theorem marker_toggle_output :
  (forall (inProse : String.string -> Rendered -> nat)
          entries sourcePath settings out,
      entries <> [] ->
      renderTimelineEntries renderMarkdown entries sourcePath settings
      = Some out ->
      (exists items,
          out = (if showMarkers settings
                 then [El div "timeline-start-marker" ariaHidden []]
                 else [])
                ++ items
          /\ Forall2
               (fun entry item =>
                  exists bodyEl,
                    liveBody renderMarkdown sourcePath entry = Some bodyEl
                    /\ item
                       = El div "timeline-item" []
                           ((if showMarkers settings
                             then [El div "timeline-marker" ariaHidden []]
                             else [])
                            ++ [El div "timeline-content" []
                                  (liveMeta settings entry ++ [bodyEl])]))
               entries items)
      /\ countClassInWith inProse "timeline-start-marker" out
         = (if showMarkers settings then 1 else 0)
           + inProseOf inProse renderMarkdown sourcePath
               "timeline-start-marker" entries
      /\ countClassInWith inProse "timeline-marker" out
         = (if showMarkers settings then length entries else 0)
           + inProseOf inProse renderMarkdown sourcePath
               "timeline-marker" entries)
  /\ (forall source sourcePath settings html,
      parseTimelineSource source <> [] ->
      renderTimelineHtml renderMarkdown innerHTML source settings sourcePath
      = Some html ->
      (exists items,
          html = Markup.timelineOpen
                 ++ (if showMarkers settings then Markup.startMarker else [])
                 ++ concat items ++ Markup.divClose
          /\ Forall2
               (fun (entry : TimelineEntry) item =>
                  exists rest,
                    item = Markup.itemOpen
                           ++ (if showMarkers settings
                               then Markup.marker else [])
                           ++ Markup.contentOpen ++ rest)
               (parseTimelineSource source) items)
      /\ occurrences startMarkerTag html
         = (if showMarkers settings then 1 else 0)
           + inBodies renderMarkdown innerHTML sourcePath startMarkerTag
               (parseTimelineSource source)
      /\ occurrences markerTag html
         = (if showMarkers settings
            then length (parseTimelineSource source) else 0)
           + inBodies renderMarkdown innerHTML sourcePath markerTag
               (parseTimelineSource source)).
Proof.
  split.
  - intros inProse entries sourcePath settings out Hne H.
    split; [exact (renderTimelineEntries_shape _ _ _ _ _ _ Hne H) |].
    split.
    + rewrite (renderTimelineEntries_countWith _ renderMarkdown inProse
                 "timeline-start-marker" _ _ _ _
                 (or_introl eq_refl) Hne H).
      cbn [String.eqb Ascii.eqb Bool.eqb]. destruct (showMarkers settings); lia.
    + rewrite (renderTimelineEntries_countWith _ renderMarkdown inProse
                 "timeline-marker" _ _ _ _
                 (or_intror (or_introl eq_refl)) Hne H).
      cbn [String.eqb Ascii.eqb Bool.eqb]. destruct (showMarkers settings); lia.
  - intros source sourcePath settings html Hne H.
    split; [|split].
    + revert H.
      unfold renderTimelineHtml, renderTimelineHtmlSegments, andThen.
      destruct (parseTimelineSource source) as [|e es]; [congruence |].
      cbn [length Nat.eqb].
      destruct (htmlItems _ _ _ _ (e :: es)) as [segs|] eqn:I;
        [|discriminate].
      cbn [option_map]. intros H. apply Some_eq in H. subst html.
      destruct (htmlItems_markup _ _ _ _ _ _ _ I) as (items & E & Hall).
      exists items. split; [|exact Hall].
      destruct (showMarkers settings); cbn [app concat];
        rewrite concat_app, E; cbn [concat]; now rewrite app_nil_r.
    + rewrite (occurrences_renderTimelineHtml _ renderMarkdown innerHTML
                 _ _ _ _ startMarkerTag_shape startMarkerTag_profile
                 _ _ _ _ Hne H).
      destruct (showMarkers settings); lia.
    + rewrite (occurrences_renderTimelineHtml _ renderMarkdown innerHTML
                 _ _ _ _ markerTag_shape markerTag_profile
                 _ _ _ _ Hne H).
      destruct (showMarkers settings); lia.
Qed.

End MarkerToggle.

Lemma marker_toggle_output_witness :
  (exists html,
      renderTimelineHtml paragraphRenderer (fun r => r) sampleSource
        DEFAULT_SETTINGS (lit "note.md") = Some html
      /\ occurrences startMarkerTag html = 1
      /\ occurrences markerTag html = 2)
  /\ (exists out,
      renderTimelineEntries paragraphRenderer
        (parseTimelineSource sampleSource) (lit "note.md")
        (mkSettings false (lit "Date")) = Some out
      /\ countClassInWith (fun c r => occurrences (tagOpen c) r)
           "timeline-start-marker" out = 0
      /\ countClassInWith (fun c r => occurrences (tagOpen c) r)
           "timeline-marker" out = 0).
Proof.
  assert (Hne : parseTimelineSource sampleSource <> [])
    by (intros H; vm_compute in H; discriminate H).
  split.
  - destruct (renderTimelineHtml paragraphRenderer (fun r => r)
                sampleSource DEFAULT_SETTINGS (lit "note.md"))
      as [html|] eqn:E; [|vm_compute in E; discriminate E].
    exists html. split; [reflexivity |].
    exact (proj2 (proj2 (marker_toggle_output _ paragraphRenderer
                           (fun r => r))
                    sampleSource (lit "note.md") DEFAULT_SETTINGS html Hne
                    E)).
  - destruct (renderTimelineEntries paragraphRenderer
                (parseTimelineSource sampleSource) (lit "note.md")
                (mkSettings false (lit "Date")))
      as [out|] eqn:E; [|vm_compute in E; discriminate E].
    exists out. split; [reflexivity |].
    exact (proj2 (proj1 (marker_toggle_output _ paragraphRenderer
                           (fun r => r))
                    (fun c r => occurrences (tagOpen c) r)
                    (parseTimelineSource sampleSource) (lit "note.md")
                    (mkSettings false (lit "Date")) out Hne E)).
Defined.

(** C7. With [showMarkers] false and one entry, whose body is the markup of
    a marker, the returned string and the live tree hold a marker; with
    [showMarkers] true they hold two markers for the one entry. *)
Lemma marker_toggle_counterexample :
  parseTimelineSource rawMarkerSource
  = [mkEntry None (Some (lit "A")) Markup.marker]
  /\ showMarkers (mkSettings false []) = false
  /\ (exists html,
         renderTimelineHtml rawHtmlHost (fun r => r) rawMarkerSource
           (mkSettings false []) (lit "note.md") = Some html
         /\ occurrences markerTag html = 1)
  /\ (exists out,
         renderTimelineEntries rawHtmlHost
           (parseTimelineSource rawMarkerSource) (lit "note.md")
           (mkSettings false []) = Some out
         /\ countClassInWith (fun c r => occurrences (tagOpen c) r)
              "timeline-marker" out = 1)
  /\ (exists html,
         renderTimelineHtml rawHtmlHost (fun r => r) rawMarkerSource
           (mkSettings true []) (lit "note.md") = Some html
         /\ occurrences markerTag html = 2).
Proof.
  split; [reflexivity |]. split; [reflexivity |].
  split; [|split]; eexists; split; reflexivity.
Qed.

(* ------------------------------------------------------------------ *)
(** *** The displayed date *)



Lemma whenTruthy_falsy {A} o (f : jsstring -> A) :
  truthy o = false -> whenTruthy o f = [].
Proof.
  unfold whenTruthy, truthy. destruct o as [s|]; auto. now intros ->.
Qed.







(* ------------------------------------------------------------------ *)
(** *** The body block *)

Section BodyBlock.

Variable Rendered : Type.
Variable renderMarkdown : jsstring -> jsstring -> option Rendered.
Variable innerHTML : Rendered -> jsstring.

(** The static renderer writes a body block only for a body that is not
    empty after trimming (and only when the rendered markup is not empty). *)
Lemma static_body_block_guarded sourcePath entry segs :
  htmlBody renderMarkdown innerHTML sourcePath entry = Some segs ->
  segs = []
  \/ exists host,
      nonEmpty (trim (body entry)) = true
      /\ renderMarkdown (trim (body entry)) sourcePath = Some host
      /\ trim (innerHTML host) <> []
      /\ segs = [Markup.bodyBlock (trim (innerHTML host))].
Proof.
  unfold htmlBody. destruct (nonEmpty (trim (body entry))) eqn:B.
  - destruct (renderMarkdown _ _) as [host|] eqn:R; [|discriminate].
    intros H. inversion H; subst.
    destruct (nonEmpty (trim (innerHTML host))) eqn:N; auto.
    right. exists host. repeat split; auto. now apply nonEmpty_true.
  - intros H. inversion H. auto.
Qed.

(** The live renderer creates the body element whatever the body is. *)
Lemma live_body_block_always sourcePath entry bodyEl :
  liveBody renderMarkdown sourcePath entry = Some bodyEl ->
  exists children, bodyEl = El div "timeline-body" [] children.
Proof.
  unfold liveBody. destruct (nonEmpty _).
  - destruct (renderMarkdown _ _) as [content|]; [|discriminate].
    intros H. inversion H. eauto.
  - intros H. inversion H. eauto.
Qed.

(** C1, at the source text [A]: one entry with a title and an empty body.
    The static markup has no body block; the live tree has an empty
    [timeline-body] element in the content of the item. *)
Theorem body_block_divergence (sourcePath : jsstring) :
  parseTimelineSource (lit "A") = [mkEntry None (Some (lit "A")) []]
  /\ renderTimelineHtmlSegments renderMarkdown innerHTML (lit "A")
       DEFAULT_SETTINGS sourcePath
     = Some [Markup.timelineOpen; Markup.startMarker;
             Markup.itemOpen; Markup.marker; Markup.contentOpen;
             Markup.metaOpen; Markup.dateSpan (lit "Date");
             Markup.titleSpan (lit "A"); Markup.divClose;
             Markup.itemClose; Markup.divClose]
  /\ processCodeBlock renderMarkdown (lit "A") sourcePath DEFAULT_SETTINGS
     = Some (El div "timeline" []
               [El div "timeline-start-marker" ariaHidden [];
                El div "timeline-item" []
                  [El div "timeline-marker" ariaHidden [];
                   El div "timeline-content" []
                     [El div "timeline-meta" []
                        [liveDate (lit "Date"); liveTitle (lit "A")];
                      El div "timeline-body" [] []]]]).
Proof. repeat split. Qed.

End BodyBlock.

(* ------------------------------------------------------------------ *)
(** *** The two renderers on the sample source *)

Example render_sample_html :
  renderTimelineHtml paragraphRenderer (fun r => r) sampleSource
    (mkSettings false []) (lit "note.md")
  = Some (lit "<div class=" ++ dquote :: lit "timeline" ++ dquote
          :: lit "><div class=" ++ dquote :: lit "timeline-item" ++ dquote
          :: lit "><div class=" ++ dquote :: lit "timeline-content" ++ dquote
          :: lit "><div class=" ++ dquote :: lit "timeline-meta" ++ dquote
          :: lit "><span class=" ++ dquote :: lit "timeline-date" ++ dquote
          :: lit ">2024-01-01</span><span class=" ++ dquote
          :: lit "timeline-title" ++ dquote
          :: lit ">Launch</span></div><div class=" ++ dquote
          :: lit "timeline-body" ++ dquote
          :: lit "><p>Body text</p></div></div></div><div class=" ++ dquote
          :: lit "timeline-item" ++ dquote
          :: lit "><div class=" ++ dquote :: lit "timeline-content" ++ dquote
          :: lit "><div class=" ++ dquote :: lit "timeline-meta" ++ dquote
          :: lit "><span class=" ++ dquote :: lit "timeline-title" ++ dquote
          :: lit ">Just a title</span></div></div></div></div>").
Proof. vm_compute. reflexivity. Qed.

Example render_sample_live :
  processCodeBlock paragraphRenderer sampleSource (lit "note.md")
    (mkSettings false [])
  = Some (El div "timeline" []
            [El div "timeline-item" []
               [El div "timeline-content" []
                  [El div "timeline-meta" []
                     [liveDate (lit "2024-01-01"); liveTitle (lit "Launch")];
                   El div "timeline-body" []
                     [Prose (lit "<p>Body text</p>")]]];
             El div "timeline-item" []
               [El div "timeline-content" []
                  [El div "timeline-meta" [] [liveTitle (lit "Just a title")];
                   El div "timeline-body" [] []]]]).
Proof. vm_compute. reflexivity. Qed.

(** A rejected promise of the host's renderer rejects the whole render. *)
Example render_rejected :
  renderTimelineHtml (fun _ _ => @None jsstring) (fun r => r) sampleSource
    DEFAULT_SETTINGS (lit "note.md") = None
  /\ processCodeBlock (fun _ _ => @None jsstring) sampleSource
       (lit "note.md") DEFAULT_SETTINGS = None.
Proof. split; vm_compute; reflexivity. Qed.

(* ================================================================== *)
(** ** More about the segmenter *)

Lemma not_ws_not_nl c : is_ws c = false -> (c =? nl)%N = false.
Proof.
  intros H. destruct (N.eqb_spec c nl) as [-> |]; auto.
Qed.

Lemma cutBlank_head c r p q :
  (c =? nl)%N = false -> cutBlank (c :: r) = Some (p, q) ->
  exists p', p = c :: p'.
Proof.
  intros Hc. cbn [cutBlank]. rewrite Hc. cbn [andb].
  destruct (cutBlank r) as [[p0 q0]|]; [|discriminate].
  intros H. inversion H. now exists p0.
Qed.

(** A source that is not white space alone has a first block. *)
Lemma blocksOf_nonempty c r : is_ws c = false -> blocksOf (c :: r) <> [].
Proof.
  intros Hc. unfold blocksOf. rewrite splitBlank_unfold.
  destruct (cutBlank (c :: r)) as [[p q]|] eqn:C.
  - destruct (cutBlank_head _ _ _ _ (not_ws_not_nl _ Hc) C) as (p' & ->).
    cbn [map filter]. now rewrite trim_cons.
  - cbn [map filter]. now rewrite trim_cons.
Qed.

(** X1. The segmenter returns no entry only for a source that is white
    space from end to end: any other source gives at least one entry. *)
Theorem parse_empty_iff (source : jsstring) :
  parseTimelineSource source = [] <-> forallb is_ws source = true.
Proof.
  split.
  - rewrite parseTimelineSource_blocks. intros H.
    destruct (trim_cases source) as [E | (c & r & Hc & _ & E)].
    + now apply trim_nil_all_ws.
    + rewrite E in H. apply map_eq_nil in H.
      now apply blocksOf_nonempty in H.
  - intros H. unfold parseTimelineSource. now rewrite (trim_all_ws _ H).
Qed.

Lemma orUndefined_Some_eq x y : orUndefined x = Some y -> y = x.
Proof.
  unfold orUndefined. destruct (nonEmpty x); intros H; inversion H; auto.
Qed.

Lemma parseHeader_trimmed line :
  (forall d, h_date (parseHeader line) = Some d -> trim d = d) /\
  (forall t, h_title (parseHeader line) = Some t -> trim t = t).
Proof.
  rewrite parseHeader_cut.
  destruct (cut pipe line) as [[p q]|]; [|destruct (cut dash line) as [[p q]|]];
    simpl; split; intros y H; try discriminate;
    apply orUndefined_Some_eq in H; subst y; apply trim_idem.
Qed.

Lemma blocksOf_trimmed t block : In block (blocksOf t) -> trim block = block.
Proof.
  unfold blocksOf. intros H. apply filter_In in H as [H _].
  apply in_map_iff in H as (x & <- & _). apply trim_idem.
Qed.

(** X2. Every text the segmenter stores is trimmed: the body of an entry,
    and its date and its title when present, have no white space at either
    end. *)
Theorem entry_fields_trimmed (source : jsstring) (e : TimelineEntry) :
  In e (parseTimelineSource source) ->
  trim (body e) = body e
  /\ (forall d, date e = Some d -> trim d = d)
  /\ (forall t, title e = Some t -> trim t = t).
Proof.
  rewrite parseTimelineSource_blocks. intros H.
  apply in_map_iff in H as (block & <- & Hin).
  pose proof (blocksOf_trimmed _ _ Hin) as Hb.
  destruct (isLikelyBodyStart (firstLineOf block)) eqn:B.
  - rewrite parseBlock_bodyStart by assumption. simpl.
    repeat split; auto; discriminate.
  - rewrite parseBlock_header by assumption. cbv zeta.
    destruct (parseHeader_trimmed (headerLineOf block)) as [Hd Ht].
    destruct (_ && _); simpl.
    + repeat split; auto; discriminate.
    + repeat split; auto. unfold bodyLinesOf. apply trim_idem.
Qed.

Lemma entry_fields_trimmed_witness :
  trim (lit "Body text") = lit "Body text"
  /\ (forall d, Some (lit "2024-01-01") = Some d -> trim d = d)
  /\ (forall t, Some (lit "Launch") = Some t -> trim t = t).
Proof.
  apply (entry_fields_trimmed
           (lit "  2024-01-01  |  Launch " ++ [nl] ++ lit "  Body text  ")
           (mkEntry (Some (lit "2024-01-01")) (Some (lit "Launch"))
              (lit "Body text"))).
  left. reflexivity.
Defined.

Lemma dropWhile_app_some f a b :
  dropWhile f a <> [] -> dropWhile f (a ++ b) = dropWhile f a ++ b.
Proof.
  induction a as [|c a IH]; simpl; [congruence |].
  destruct (f c); auto.
Qed.

Lemma trimEnd_app_ws s b : forallb is_ws b = true -> trimEnd (s ++ b) = trimEnd s.
Proof.
  intros Hb. unfold trimEnd. rewrite rev_app_distr.
  rewrite dropWhile_app_all; auto. now rewrite forallb_rev.
Qed.

(** White space before and after a text does not change what it trims to. *)
Lemma trim_pad a s b :
  forallb is_ws a = true -> forallb is_ws b = true ->
  trim (a ++ s ++ b) = trim s.
Proof.
  intros Ha Hb. unfold trim, trimStart.
  rewrite dropWhile_app_all by assumption.
  destruct (dropWhile_cases is_ws s) as [E | (c & r & E & Hc)].
  - apply dropWhile_nil_all in E.
    rewrite (dropWhile_all is_ws s E).
    rewrite dropWhile_all; auto.
    rewrite forallb_app. now rewrite E, Hb.
  - rewrite dropWhile_app_some by (rewrite E; discriminate).
    now apply trimEnd_app_ws.
Qed.

(** X3. White space around the source (blank lines before the first block
    or after the last) does not change the entries. *)
Theorem parse_padding (a source b : jsstring) :
  forallb is_ws a = true -> forallb is_ws b = true ->
  parseTimelineSource (a ++ source ++ b) = parseTimelineSource source.
Proof.
  intros Ha Hb. rewrite !parseTimelineSource_blocks.
  now rewrite trim_pad.
Qed.

Lemma parse_padding_witness :
  parseTimelineSource
    ([nl; nl] ++ lit "  " ++ lit "2024 | Launch" ++ lit " " ++ [nl])
  = parseTimelineSource (lit "2024 | Launch").
Proof.
  apply (parse_padding ([nl; nl] ++ lit "  ") (lit "2024 | Launch")
           (lit " " ++ [nl])); reflexivity.
Defined.

Lemma startsWith_app_l p s b :
  startsWith p s = true -> startsWith p (s ++ b) = true.
Proof.
  revert s. induction p as [|a p IH]; intros s; simpl; auto.
  destruct s as [|c s]; simpl; [discriminate |].
  intros H. apply andb_true_iff in H as [-> H]. simpl. auto.
Qed.

(** Whether a line feed comes next does not depend on what follows a text
    that is not empty. *)
Lemma startsWith_nl_app l b :
  l <> [] -> startsWith [nl] (l ++ b) = startsWith [nl] l.
Proof. destruct l; [congruence | reflexivity]. Qed.

Lemma dropWhile_repeat_nl k s :
  dropWhile (fun x => (x =? nl)%N) (repeat nl k ++ s)
  = dropWhile (fun x => (x =? nl)%N) s.
Proof. induction k; simpl; auto. Qed.

Lemma cutBlank_eq c r :
  cutBlank (c :: r) =
  if (c =? nl)%N && startsWith [nl] r
  then Some ([], dropWhile (fun x => (x =? nl)%N) r)
  else match cutBlank r with
       | Some (p, q) => Some (c :: p, q)
       | None => None
       end.
Proof. reflexivity. Qed.

Lemma cutBlank_app_Some a b p q :
  cutBlank a = Some (p, q) -> q <> [] ->
  cutBlank (a ++ b) = Some (p, q ++ b).
Proof.
  revert p. induction a as [|c r IH]; intros p; [discriminate |].
  rewrite <- app_comm_cons, !cutBlank_eq.
  destruct ((c =? nl)%N && startsWith [nl] r) eqn:T.
  - intros H Hq. inversion H; subst.
    apply andb_true_iff in T as [Tc Tr].
    rewrite Tc, (startsWith_app_l _ _ b Tr). cbn [andb].
    now rewrite dropWhile_app_some.
  - destruct (cutBlank r) as [[p0 q0]|] eqn:C; [|discriminate].
    intros H Hq. inversion H; subst.
    assert (Hr : r <> []) by (intros ->; discriminate).
    rewrite (startsWith_nl_app r b Hr), T.
    now rewrite (IH p0 eq_refl Hq).
Qed.

(** A run of two or more line feeds after a text that has no such run and
    does not end with a line feed is where the text is cut. *)
Lemma cutBlank_sep a x k y s2 :
  (x =? nl)%N = false -> (y =? nl)%N = false ->
  cutBlank (a ++ [x]) = None ->
  cutBlank ((a ++ [x]) ++ repeat nl (2 + k) ++ y :: s2)
  = Some (a ++ [x], y :: s2).
Proof.
  intros Hx Hy.
  assert (Hrun : cutBlank (repeat nl (2 + k) ++ y :: s2)
                 = Some ([], y :: s2)).
  { cbn [repeat Nat.add app]. rewrite cutBlank_eq.
    cbn [startsWith]. rewrite !N.eqb_refl. cbn [andb].
    change (nl :: repeat nl k ++ y :: s2)
      with (repeat nl (S k) ++ y :: s2).
    rewrite dropWhile_repeat_nl. cbn [dropWhile]. now rewrite Hy. }
  induction a as [|c a IH]; intros H.
  - cbn [app] in *. rewrite cutBlank_eq, Hx. cbn [andb].
    change (nl :: nl :: repeat nl k ++ y :: s2)
      with (repeat nl (2 + k) ++ y :: s2).
    now rewrite Hrun.
  - rewrite <- !app_comm_cons in *. rewrite cutBlank_eq in *.
    assert (Hne : a ++ [x] <> []) by (destruct a; discriminate).
    rewrite (startsWith_nl_app _ _ Hne).
    destruct ((c =? nl)%N && startsWith [nl] (a ++ [x])); [discriminate |].
    destruct (cutBlank (a ++ [x])) as [[p q]|] eqn:C; [discriminate |].
    now rewrite (IH eq_refl).
Qed.

(** What [cutBlank] removes is a run of line feeds. *)
Lemma cutBlank_Some_shape a p q :
  cutBlank a = Some (p, q) ->
  exists m, a = p ++ m ++ q /\ m <> []
            /\ forallb (fun x : char => (x =? nl)%N) m = true.
Proof.
  revert p. induction a as [|c r IH]; intros p; [discriminate |].
  rewrite cutBlank_eq.
  destruct ((c =? nl)%N && startsWith [nl] r) eqn:T.
  - intros H. inversion H; subst.
    apply andb_true_iff in T as [Tc _].
    destruct (dropWhile_split (fun x => (x =? nl)%N) r) as (m & E & Hm).
    exists (c :: m). cbn [app forallb]. rewrite Tc, Hm.
    repeat split; try discriminate. now f_equal.
  - destruct (cutBlank r) as [[p0 q0]|]; [|discriminate].
    intros H. inversion H; subst.
    destruct (IH p0 eq_refl) as (m & E & Hm). exists m.
    rewrite <- app_comm_cons. split; [now f_equal | assumption].
Qed.

Lemma splitBlank_sep n :
  forall a x k y s2,
    length a < n ->
    (x =? nl)%N = false -> (y =? nl)%N = false ->
    splitBlank ((a ++ [x]) ++ repeat nl (2 + k) ++ y :: s2)
    = splitBlank (a ++ [x]) ++ splitBlank (y :: s2).
Proof.
  induction n as [|n IH]; intros a x k y s2 Hlen Hx Hy; [lia |].
  rewrite (splitBlank_unfold ((a ++ [x]) ++ _)).
  rewrite (splitBlank_unfold (a ++ [x])).
  destruct (cutBlank (a ++ [x])) as [[p q]|] eqn:C.
  - destruct (cutBlank_Some_shape _ _ _ C) as (m & E & Hm & Hnl).
    destruct (exists_last Hm) as (m' & z & ->).
    rewrite forallb_app in Hnl. apply andb_true_iff in Hnl as [_ Hz].
    cbn [forallb] in Hz. rewrite andb_true_r in Hz.
    destruct q as [|q0 qs].
    + exfalso. rewrite app_nil_r, app_assoc in E.
      apply app_inj_tail in E as [_ ->]. congruence.
    + destruct (@exists_last _ (q0 :: qs)) as (q' & x' & Eq);
        [discriminate |].
      rewrite Eq in *.
      assert (E' : a ++ [x] = (p ++ (m' ++ [z]) ++ q') ++ [x'])
        by (rewrite E; now rewrite <- !app_assoc).
      apply app_inj_tail in E' as [Ea ->].
      rewrite (cutBlank_app_Some _ _ _ _ C) by (destruct q'; discriminate).
      rewrite IH; [reflexivity | | assumption | assumption].
      subst a. rewrite !length_app in Hlen. simpl in Hlen.
      unfold jsstring, char in *. lia.
  - now rewrite cutBlank_sep.
Qed.

Lemma trimEnd_snoc s x : is_ws x = false -> trimEnd (s ++ [x]) = s ++ [x].
Proof.
  intros Hx. unfold trimEnd. rewrite rev_app_distr. simpl. rewrite Hx.
  simpl. now rewrite rev_involutive.
Qed.

(** A trimmed text that is not empty starts and ends with a character that
    is not white space. *)
Lemma trimmed_shape s :
  trim s = s -> s <> [] ->
  (exists c r, s = c :: r /\ is_ws c = false)
  /\ (exists r x, s = r ++ [x] /\ is_ws x = false).
Proof.
  intros Ht Hne. split.
  - destruct (trim_cases s) as [E | (c & r & Hc & _ & E)]; [congruence |].
    exists c, (trimEnd r). split; [congruence | assumption].
  - unfold trim, trimEnd in Ht.
    destruct (dropWhile_cases is_ws (rev (trimStart s)))
      as [E | (d & l & E & Hd)]; rewrite E in Ht.
    + simpl in Ht. congruence.
    + exists (rev l), d. split; [now rewrite <- Ht | assumption].
Qed.

(** X4. Blocks are parsed independently and in order: for two trimmed texts
    that are not empty, joined by a run of two or more line feeds, the
    entries are those of the first text followed by those of the second. *)
Theorem parse_blocks_compose (s1 s2 : jsstring) (k : nat) :
  trim s1 = s1 -> s1 <> [] ->
  trim s2 = s2 -> s2 <> [] ->
  parseTimelineSource (s1 ++ repeat nl (2 + k) ++ s2)
  = parseTimelineSource s1 ++ parseTimelineSource s2.
Proof.
  intros T1 N1 T2 N2.
  destruct (trimmed_shape _ T1 N1) as [(c1 & r1 & E1 & Hc1) (a1 & x1 & A1 & Hx1)].
  destruct (trimmed_shape _ T2 N2) as [(c2 & r2 & E2 & Hc2) (a2 & x2 & A2 & Hx2)].
  assert (Hwhole : trim (s1 ++ repeat nl (2 + k) ++ s2)
                   = s1 ++ repeat nl (2 + k) ++ s2).
  { rewrite E1, A2.
    replace ((c1 :: r1) ++ repeat nl (2 + k) ++ a2 ++ [x2])
      with (c1 :: (r1 ++ repeat nl (2 + k) ++ a2) ++ [x2])
      by (rewrite <- !app_assoc; reflexivity).
    now rewrite trim_cons, trimEnd_snoc. }
  rewrite !parseTimelineSource_blocks, Hwhole, T1, T2.
  assert (Hsplit : splitBlank (s1 ++ repeat nl (2 + k) ++ s2)
                   = splitBlank s1 ++ splitBlank s2).
  { rewrite A1, E2.
    apply (splitBlank_sep (S (length a1))); auto using not_ws_not_nl. }
  unfold blocksOf. rewrite Hsplit.
  now rewrite map_app, filter_app, map_app.
Qed.

Lemma parse_blocks_compose_witness :
  parseTimelineSource
    (lit "2024 | Launch" ++ [nl] ++ lit "Body" ++ [nl; nl; nl]
     ++ lit "- item")
  = [mkEntry (Some (lit "2024")) (Some (lit "Launch")) (lit "Body")]
    ++ [bodyOnly (lit "- item")].
Proof.
  assert (N1 : lit "2024 | Launch" ++ [nl] ++ lit "Body" <> [])
    by discriminate.
  assert (N2 : lit "- item" <> []) by discriminate.
  exact (parse_blocks_compose
           (lit "2024 | Launch" ++ [nl] ++ lit "Body")
           (lit "- item") 1 eq_refl N1 eq_refl N2).
Defined.

(* ================================================================== *)
(** ** More about the renderers *)

Section Rejection.

Variable Rendered : Type.
Variable renderMarkdown : jsstring -> jsstring -> option Rendered.
Variable innerHTML : Rendered -> jsstring.

Lemma htmlBody_None sourcePath entry :
  htmlBody renderMarkdown innerHTML sourcePath entry = None
  <-> bodyRejected renderMarkdown sourcePath entry.
Proof.
  unfold htmlBody, bodyRejected.
  destruct (nonEmpty (trim (body entry))) eqn:B.
  - apply nonEmpty_true in B.
    destruct (renderMarkdown _ _); simpl; split; auto; try discriminate.
    now intros [_ H].
  - split; [discriminate |]. intros [H _].
    apply nonEmpty_true in H. congruence.
Qed.

Lemma liveBody_None sourcePath entry :
  liveBody renderMarkdown sourcePath entry = None
  <-> bodyRejected renderMarkdown sourcePath entry.
Proof.
  unfold liveBody, bodyRejected.
  destruct (nonEmpty (trim (body entry))) eqn:B.
  - apply nonEmpty_true in B.
    destruct (renderMarkdown _ _); simpl; split; auto; try discriminate.
    now intros [_ H].
  - split; [discriminate |]. intros [H _].
    apply nonEmpty_true in H. congruence.
Qed.

Lemma htmlItems_None settings sourcePath entries :
  htmlItems renderMarkdown innerHTML settings sourcePath entries = None
  <-> Exists (bodyRejected renderMarkdown sourcePath) entries.
Proof.
  induction entries as [|entry rest IH]; simpl.
  - split; [discriminate | intros H; inversion H].
  - rewrite Exists_cons, <- IH, <- htmlBody_None.
    unfold htmlItem.
    destruct (htmlBody _ _ _ _); simpl; [|tauto].
    destruct (htmlItems _ _ _ _ rest); simpl.
    + split; [intros H; discriminate H | intros [H | H]; discriminate H].
    + split; auto.
Qed.

Lemma liveItems_None settings sourcePath entries :
  liveItems renderMarkdown settings sourcePath entries = None
  <-> Exists (bodyRejected renderMarkdown sourcePath) entries.
Proof.
  induction entries as [|entry rest IH]; simpl.
  - split; [discriminate | intros H; inversion H].
  - rewrite Exists_cons, <- IH, <- liveBody_None.
    unfold liveItem.
    destruct (liveBody _ _ _); simpl; [|tauto].
    destruct (liveItems _ _ _ rest); simpl.
    + split; [intros H; discriminate H | intros [H | H]; discriminate H].
    + split; auto.
Qed.

Lemma renderTimelineEntries_None entries sourcePath settings :
  renderTimelineEntries renderMarkdown entries sourcePath settings = None
  <-> Exists (bodyRejected renderMarkdown sourcePath) entries.
Proof.
  rewrite <- (liveItems_None settings). unfold renderTimelineEntries.
  destruct entries as [|e es]; cbn [length Nat.eqb].
  - split; intros H; discriminate H.
  - destruct (liveItems _ _ _ (e :: es)); simpl; split; intros H;
      (discriminate H || reflexivity).
Qed.

Lemma renderTimelineHtml_None source settings sourcePath :
  renderTimelineHtml renderMarkdown innerHTML source settings sourcePath
  = None
  <-> Exists (bodyRejected renderMarkdown sourcePath)
        (parseTimelineSource source).
Proof.
  rewrite <- (htmlItems_None settings).
  unfold renderTimelineHtml, renderTimelineHtmlSegments.
  destruct (parseTimelineSource source) as [|e es]; cbn [length Nat.eqb].
  - split; intros H; discriminate H.
  - destruct (htmlItems _ _ _ _ (e :: es)); simpl; split; intros H;
      (discriminate H || reflexivity).
Qed.

(** X5. Either renderer rejects exactly when the host's renderer rejects the
    trimmed body of some entry whose trimmed body is not empty; so the
    static and the live renderer reject on the same sources, and neither
    rejects when the host's renderer does not. *)
Theorem render_rejection :
  (forall entries sourcePath settings,
      renderTimelineEntries renderMarkdown entries sourcePath settings = None
      <-> Exists (bodyRejected renderMarkdown sourcePath) entries)
  /\ (forall source settings sourcePath,
      renderTimelineHtml renderMarkdown innerHTML source settings sourcePath
      = None
      <-> Exists (bodyRejected renderMarkdown sourcePath)
            (parseTimelineSource source))
  /\ (forall source settings sourcePath,
      renderTimelineHtml renderMarkdown innerHTML source settings sourcePath
      = None
      <-> processCodeBlock renderMarkdown source sourcePath settings = None).
Proof.
  split; [|split].
  - exact renderTimelineEntries_None.
  - exact renderTimelineHtml_None.
  - intros source settings sourcePath.
    rewrite renderTimelineHtml_None,
      <- (renderTimelineEntries_None _ sourcePath settings).
    unfold processCodeBlock.
    destruct (renderTimelineEntries _ _ _ _); simpl; split; auto;
      discriminate.
Qed.

End Rejection.

(* ------------------------------------------------------------------ *)
(** *** Escaping, character by character *)

Lemma escapeChar_safe c : isReserved c = false -> escapeChar c = [c].
Proof.
  unfold isReserved, escapeChar. intros H.
  repeat (apply orb_false_iff in H as [H ?]).
  now repeat match goal with E : (_ =? _)%N = false |- _ =>
               rewrite E; clear E end.
Qed.

Lemma escapeChar_reserved c :
  isReserved c = true ->
  exists tail, escapeChar c = ch "&" :: tail /\ 3 <= length tail.
Proof.
  reserved_cases c; intros H.
  - eexists. split; [reflexivity | simpl; lia].
  - eexists. split; [reflexivity | simpl; lia].
  - eexists. split; [reflexivity | simpl; lia].
  - eexists. split; [reflexivity | simpl; lia].
  - eexists. split; [reflexivity | simpl; lia].
  - unfold isReserved in H. rewrite Ha, Hl, Hg, Hd, Hs in H. discriminate.
Qed.

Lemma escapeChar_length c :
  1 <= length (escapeChar c) /\ length (escapeChar c) <= 6.
Proof. reserved_cases c; try (simpl; lia).
  unfold escapeChar. rewrite Ha, Hl, Hg, Hd, Hs. simpl. lia.
Qed.

Lemma escapeHtml_length value :
  length value <= length (escapeHtml value)
  /\ length (escapeHtml value) <= 6 * length value.
Proof.
  induction value as [|c s [IH1 IH2]]; [simpl; lia |].
  rewrite escapeHtml_cons, length_app.
  destruct (escapeChar_length c). simpl length.
  unfold jsstring, char in *. lia.
Qed.

(** X6. [escapeHtml] leaves a text as it is exactly when the text holds none
    of the five reserved characters. *)
Theorem escapeHtml_fixed_iff (value : jsstring) :
  escapeHtml value = value
  <-> forallb (fun c => negb (isReserved c)) value = true.
Proof.
  induction value as [|c s IH]; [now split |].
  rewrite escapeHtml_cons. cbn [forallb].
  destruct (isReserved c) eqn:R; cbn [negb andb].
  - split; [|discriminate]. intros H. exfalso.
    destruct (escapeChar_reserved c R) as (tail & E & Hlen).
    rewrite E in H. inversion H as [[Hc Hs]].
    apply (f_equal (@length char)) in Hs. rewrite !length_app in Hs.
    destruct (escapeHtml_length s) as [Hge _].
    unfold jsstring, char in *. lia.
  - rewrite (escapeChar_safe c R), <- IH. cbn [app]. split.
    + intros H. injection H as H. exact H.
    + intros H. now rewrite H.
Qed.

(** X7. [escapeHtml] works one character at a time: the escape of a
    concatenation is the concatenation of the escapes, and the escaped text
    is at least as long as the text and at most six times as long. *)
Theorem escapeHtml_compositional (a b : jsstring) :
  escapeHtml (a ++ b) = escapeHtml a ++ escapeHtml b
  /\ length a <= length (escapeHtml a)
  /\ length (escapeHtml a) <= 6 * length a.
Proof.
  split; [apply escapeHtml_app | apply escapeHtml_length].
Qed.

(* ------------------------------------------------------------------ *)
(** *** One item per entry *)

Section Items.

Variable Rendered : Type.
Variable renderMarkdown : jsstring -> jsstring -> option Rendered.
Variable innerHTML : Rendered -> jsstring.

(** X8. Each renderer emits one item per entry, in what a successful render
    returns: the [timeline-item] elements of the live tree, and the opening
    tags of an item in the returned string of the static renderer, are as
    many as the entries, beside those of the rendered bodies, which are
    embedded as the host's renderer made them; none of the renderer's own
    for the empty sequence. *)
Theorem one_item_per_entry_output :
  (forall (inProse : String.string -> Rendered -> nat)
          entries sourcePath settings out,
      renderTimelineEntries renderMarkdown entries sourcePath settings
      = Some out ->
      countClassInWith inProse "timeline-item" out
      = length entries
        + inProseOf inProse renderMarkdown sourcePath "timeline-item" entries)
  /\ (forall source settings sourcePath html,
      renderTimelineHtml renderMarkdown innerHTML source settings sourcePath
      = Some html ->
      occurrences itemTag html
      = length (parseTimelineSource source)
        + inBodies renderMarkdown innerHTML sourcePath itemTag
            (parseTimelineSource source)).
Proof.
  split.
  - intros inProse entries sourcePath settings out H.
    destruct entries as [|e es].
    + inversion H. reflexivity.
    + assert (Hne : e :: es <> []) by discriminate.
      rewrite (renderTimelineEntries_countWith _ renderMarkdown inProse
                 "timeline-item" _ _ _ _
                 (or_intror (or_intror (or_introl eq_refl))) Hne H).
      cbn [String.eqb Ascii.eqb Bool.eqb].
      destruct (showMarkers settings); lia.
  - intros source settings sourcePath html H.
    destruct (parseTimelineSource source) as [|e es] eqn:P.
    + exact (occurrences_empty _ renderMarkdown innerHTML _ _ _ _
               itemTag_profile _ _ _ _ P H).
    + assert (Hne : parseTimelineSource source <> [])
        by (rewrite P; discriminate).
      rewrite (occurrences_renderTimelineHtml _ renderMarkdown innerHTML
                 _ _ _ _ itemTag_shape itemTag_profile _ _ _ _ Hne H).
      rewrite P. destruct (showMarkers settings); lia.
Qed.

End Items.

Lemma one_item_per_entry_output_witness :
  exists html,
    renderTimelineHtml paragraphRenderer (fun r => r) sampleSource
      DEFAULT_SETTINGS (lit "note.md") = Some html
    /\ occurrences itemTag html = 2.
Proof.
  destruct (renderTimelineHtml paragraphRenderer (fun r => r)
              sampleSource DEFAULT_SETTINGS (lit "note.md"))
    as [html|] eqn:E; [|vm_compute in E; discriminate E].
  exists html. split; [reflexivity |].
  exact (proj2 (one_item_per_entry_output _ paragraphRenderer (fun r => r))
           sampleSource DEFAULT_SETTINGS (lit "note.md") html E).
Defined.

(* ================================================================== *)
(** ** The batch conversion *)

Lemma skipn_length_app (p s : jsstring) : skipn (length p) (p ++ s) = s.
Proof. induction p; simpl; auto. Qed.

Lemma Contains_app_l sep a s : Contains sep s -> Contains sep (a ++ s).
Proof.
  intros (p & q & ->). exists (a ++ p), q. now rewrite <- app_assoc.
Qed.

(** A match of the part after the info string: white space, a line feed,
    the group, the closing fence; the group has no closing fence before its
    end. *)
Lemma afterInfo_shape s source rest :
  afterInfo s = Some (source, rest) ->
  exists w,
    forallb is_ws w = true
    /\ s = w ++ nl :: source ++ fenceClose ++ rest
    /\ FirstOccurrence fenceClose (source ++ fenceClose ++ rest) source rest.
Proof.
  induction s as [|c r IH]; [discriminate |]. cbn [afterInfo].
  destruct (is_ws c) eqn:Hc; [|discriminate].
  destruct (afterInfo r) as [m|].
  - intros H. inversion H; subst.
    destruct (IH eq_refl) as (w & Hw & E & F).
    exists (c :: w). cbn [forallb app]. rewrite Hc, Hw.
    split; [reflexivity | split; [now f_equal | exact F]].
  - destruct (N.eqb_spec c nl) as [-> |]; [|discriminate].
    unfold lazyBody. intros H. apply cut_Some in H.
    pose proof (proj1 H) as E. rewrite E in H at 1.
    exists []. split; [reflexivity | split; [|exact H]].
    cbn [app]. now f_equal.
Qed.

Lemma matchHere_shape s source rest :
  matchHere s = Some (source, rest) ->
  exists w,
    forallb is_ws w = true
    /\ s = fenceOpen ++ w ++ nl :: source ++ fenceClose ++ rest
    /\ FirstOccurrence fenceClose (source ++ fenceClose ++ rest) source rest.
Proof.
  unfold matchHere. destruct (startsWith fenceOpen s) eqn:S; [|discriminate].
  intros H. apply afterInfo_shape in H as (w & Hw & E & F).
  exists w. split; [assumption | split; [|exact F]].
  rewrite (startsWith_skipn _ _ S). now rewrite E.
Qed.

Lemma execTimeline_eq s :
  execTimeline s =
  match matchHere s with
  | Some (source, rest) => Some ([], source, rest)
  | None =>
      match s with
      | [] => None
      | c :: r =>
          match execTimeline r with
          | Some (before, source, rest) => Some (c :: before, source, rest)
          | None => None
          end
      end
  end.
Proof. now destruct s. Qed.

Lemma execTimeline_shape s before source rest :
  execTimeline s = Some (before, source, rest) ->
  exists w,
    forallb is_ws w = true
    /\ s = before ++ fenceOpen ++ w ++ nl :: source ++ fenceClose ++ rest
    /\ FirstOccurrence fenceClose (source ++ fenceClose ++ rest) source rest.
Proof.
  revert before. induction s as [|c r IH]; intros before;
    rewrite execTimeline_eq.
  - destruct (matchHere []) as [[src rst]|] eqn:M; [|discriminate].
    intros H. inversion H; subst. now apply matchHere_shape.
  - destruct (matchHere (c :: r)) as [[src rst]|] eqn:M.
    + intros H. inversion H; subst. now apply matchHere_shape.
    + destruct (execTimeline r) as [[[b src] rst]|]; [|discriminate].
      intros H. inversion H; subst.
      destruct (IH b eq_refl) as (w & Hw & E & F).
      exists w. split; [assumption | split; [|exact F]].
      cbn [app]. now f_equal.
Qed.

Lemma execTimeline_shrinks s before source rest :
  execTimeline s = Some (before, source, rest) -> length rest < length s.
Proof.
  intros H. apply execTimeline_shape in H as (w & _ & -> & _).
  rewrite !length_app. cbn [length]. rewrite !length_app.
  unfold jsstring, char in *. simpl. lia.
Qed.

Lemma execTimeline_no_open s :
  ~ Contains fenceOpen s -> execTimeline s = None.
Proof.
  intros H. destruct (execTimeline s) as [[[b src] rst]|] eqn:E; auto.
  exfalso. apply H.
  apply execTimeline_shape in E as (w & _ & -> & _).
  now exists b, (w ++ nl :: src ++ fenceClose ++ rst).
Qed.

Lemma execTimeline_no_close s :
  ~ Contains fenceClose s -> execTimeline s = None.
Proof.
  intros H. destruct (execTimeline s) as [[[b src] rst]|] eqn:E; auto.
  exfalso. apply H.
  apply execTimeline_shape in E as (w & _ & -> & _).
  exists (b ++ fenceOpen ++ w ++ nl :: src), rst.
  repeat (rewrite <- app_assoc || rewrite <- app_comm_cons). reflexivity.
Qed.

(** The pattern matches a fenced block whose text does not start with white
    space. *)
Lemma matchHere_block pad x source post :
  forallb is_ws pad = true -> is_ws x = false ->
  FirstOccurrence fenceClose ((x :: source) ++ fenceClose ++ post)
    (x :: source) post ->
  matchHere (fenceOpen ++ pad ++ nl :: (x :: source) ++ fenceClose ++ post)
  = Some (x :: source, post).
Proof.
  intros Hpad Hx F. unfold matchHere.
  rewrite startsWith_app, skipn_length_app.
  change ((x :: source) ++ fenceClose ++ post)
    with (x :: source ++ fenceClose ++ post).
  induction pad as [|c pad IH].
  - cbn [app afterInfo]. rewrite Hx, N.eqb_refl.
    change (is_ws nl) with true. cbn iota.
    exact (FirstOccurrence_cut _ _ _ _ F).
  - cbn [forallb] in Hpad. apply andb_true_iff in Hpad as [Hc Hpad].
    cbn [app afterInfo]. rewrite Hc. now rewrite (IH Hpad).
Qed.

Lemma matchHere_head c r :
  (c =? ch "`")%N = false -> matchHere (c :: r) = None.
Proof.
  intros H. unfold matchHere, fenceOpen.
  cbn [lit map String.list_ascii_of_string startsWith].
  rewrite N.eqb_sym in H. now rewrite H.
Qed.

Lemma execTimeline_block pre block source post :
  ~ In (ch "`") pre ->
  matchHere block = Some (source, post) ->
  execTimeline (pre ++ block) = Some (pre, source, post).
Proof.
  intros Hpre M. induction pre as [|c pre IH]; rewrite execTimeline_eq.
  - cbn [app]. now rewrite M.
  - cbn [app]. rewrite matchHere_head.
    + rewrite IH; auto. intros Hin. apply Hpre. now right.
    + apply N.eqb_neq. intros ->. apply Hpre. now left.
Qed.

Section ConversionFacts.

Variable Rendered : Type.
Variable renderMarkdown : jsstring -> jsstring -> option Rendered.
Variable innerHTML : Rendered -> jsstring.

(** The loop only appends to the output and only counts up. *)
Lemma convertLoop_acc fuel settings filePath rest output n :
  convertLoop renderMarkdown innerHTML fuel settings filePath rest output n =
  match convertLoop renderMarkdown innerHTML fuel settings filePath rest [] 0 with
  | Some (r, o, m) => Some (r, output ++ o, n + m)
  | None => None
  end.
Proof.
  revert rest output n.
  induction fuel as [|k IH]; intros rest output n; cbn [convertLoop].
  - now rewrite app_nil_r, Nat.add_0_r.
  - destruct (execTimeline rest) as [[[before source] rest']|].
    + unfold andThen.
      destruct (renderTimelineHtml _ _ source settings filePath)
        as [html|]; auto.
      rewrite (IH rest' ((output ++ before) ++ html) (S n)).
      rewrite (IH rest' (([] ++ before) ++ html) 1).
      destruct (convertLoop _ _ k settings filePath rest' [] 0)
        as [[[r o] m]|]; auto.
      cbn [app]. rewrite <- !app_assoc. do 2 f_equal. lia.
    + now rewrite app_nil_r, Nat.add_0_r.
Qed.

(** [length content] turns are enough. *)
Lemma convertLoop_enough settings filePath :
  forall k k' rest output n,
    length rest <= k -> length rest <= k' ->
    convertLoop renderMarkdown innerHTML k settings filePath rest output n
    = convertLoop renderMarkdown innerHTML k' settings filePath rest output n.
Proof.
  assert (Hnil : forall rest, length rest <= 0 -> execTimeline rest = None).
  { intros rest H. destruct (execTimeline rest) as [[[b s] r]|] eqn:E; auto.
    apply execTimeline_shrinks in E. lia. }
  induction k as [|k IH]; intros k' rest output n Hk Hk'.
  - destruct k'; cbn [convertLoop]; auto. now rewrite Hnil.
  - destruct k' as [|j]; cbn [convertLoop].
    + now rewrite Hnil.
    + destruct (execTimeline rest) as [[[before source] rest']|] eqn:E; auto.
      apply execTimeline_shrinks in E. unfold andThen.
      destruct (renderTimelineHtml _ _ source settings filePath); auto.
      apply IH; lia.
Qed.

(** A loop that counted nothing changed nothing. *)
Lemma convertLoop_zero fuel settings filePath rest r o :
  convertLoop renderMarkdown innerHTML fuel settings filePath rest [] 0 = Some (r, o, 0) ->
  r = rest /\ o = [].
Proof.
  destruct fuel as [|k]; cbn [convertLoop].
  - intros H. now inversion H.
  - destruct (execTimeline rest) as [[[before source] rest']|].
    + unfold andThen.
      destruct (renderTimelineHtml _ _ source settings filePath)
        as [html|]; [|discriminate].
      rewrite (convertLoop_acc k settings filePath rest'
                 (([] ++ before) ++ html) 1).
      destruct (convertLoop renderMarkdown innerHTML k settings filePath rest' [] 0) as [[[r' o'] m]|];
        intros H; inversion H.
    + intros H. now inversion H.
Qed.

(** The conversion, by the first block and the conversion of what follows
    it. *)
Lemma convert_step content settings filePath :
  convertTimelineBlocksToHtml renderMarkdown innerHTML content settings
    filePath =
  match execTimeline content with
  | None => Some NoBlocksFound
  | Some (before, source, rest) =>
      await html <-
        renderTimelineHtml renderMarkdown innerHTML source settings
          filePath ;
      await tail <-
        convertTimelineBlocksToHtml renderMarkdown innerHTML rest settings
          filePath ;
      Some (Converted (before ++ html ++ contentAfter rest tail)
              (S (countOf tail)))
  end.
Proof.
  unfold convertTimelineBlocksToHtml.
  destruct (execTimeline content) as [[[before source] rest]|] eqn:E.
  - pose proof (execTimeline_shrinks _ _ _ _ E) as Hlen.
    destruct content as [|c content']; [simpl in Hlen; lia |].
    cbn [length convertLoop]. rewrite E. unfold andThen.
    destruct (renderTimelineHtml _ _ source settings filePath)
      as [html|]; auto.
    rewrite (convertLoop_acc (length content') settings filePath rest
               (([] ++ before) ++ html) 1).
    rewrite (convertLoop_enough settings filePath (length content')
               (length rest) rest [] 0)
      by (simpl in Hlen; unfold jsstring, char in *; lia).
    destruct (convertLoop renderMarkdown innerHTML (length rest) settings filePath rest [] 0)
      as [[[r o] m]|] eqn:L; auto.
    cbn [Nat.add Nat.eqb app]. destruct m as [|m].
    + apply convertLoop_zero in L as [-> ->].
      cbn [Nat.eqb contentAfter countOf]. now rewrite app_nil_r, app_assoc.
    + cbn [Nat.eqb contentAfter countOf]. now rewrite <- !app_assoc.
  - destruct (length content); cbn [convertLoop andThen Nat.eqb]; auto.
    now rewrite E.
Qed.

(** X9. A file with no opening fence [```timeline], or with no closing
    fence line, has no block to convert: the conversion reports that no
    block was found and leaves the file as it is, whatever the host's
    renderer would do. *)
Theorem convert_no_blocks (content : jsstring)
    (settings : TimelinePluginSettings) (filePath : jsstring) :
  ~ Contains fenceOpen content \/ ~ Contains fenceClose content ->
  convertTimelineBlocksToHtml renderMarkdown innerHTML content settings
    filePath = Some NoBlocksFound.
Proof.
  intros H. rewrite convert_step.
  destruct H as [H | H].
  - now rewrite (execTimeline_no_open _ H).
  - now rewrite (execTimeline_no_close _ H).
Qed.

(** X10. What the conversion replaces is a whole fenced block.  When a first
    block is found, the file is the text before it, the opening fence,
    white space, a line feed, the source of the timeline, the closing fence
    and the rest; the source has no closing fence before its end; and the
    conversion writes the text before, the markup of the source, and the
    conversion of the rest, counting one block more. *)
Theorem convert_first_block (content before source rest : jsstring)
    (settings : TimelinePluginSettings) (filePath : jsstring) :
  execTimeline content = Some (before, source, rest) ->
  (exists w,
      forallb is_ws w = true
      /\ content
         = before ++ fenceOpen ++ w ++ nl :: source ++ fenceClose ++ rest
      /\ FirstOccurrence fenceClose (source ++ fenceClose ++ rest)
           source rest)
  /\ convertTimelineBlocksToHtml renderMarkdown innerHTML content settings
       filePath
     = (await html <-
          renderTimelineHtml renderMarkdown innerHTML source settings
            filePath ;
        await tail <-
          convertTimelineBlocksToHtml renderMarkdown innerHTML rest
            settings filePath ;
        Some (Converted (before ++ html ++ contentAfter rest tail)
                (S (countOf tail)))).
Proof.
  intros E. split.
  - now apply execTimeline_shape.
  - rewrite convert_step, E. reflexivity.
Qed.

(** X11. A file with one timeline block: text without a backtick, the
    opening fence, white space and a line feed, a source that starts with a
    character that is not white space and has no closing fence before its
    end, the closing fence, and text without an opening fence.  The
    conversion replaces the block by the markup of its source, keeps the
    text around it, and counts one block; it rejects when the rendering
    does. *)
Theorem convert_single_block (pre pad source post : jsstring) (x : char)
    (settings : TimelinePluginSettings) (filePath : jsstring) :
  ~ In (ch "`") pre ->
  forallb is_ws pad = true ->
  is_ws x = false ->
  FirstOccurrence fenceClose ((x :: source) ++ fenceClose ++ post)
    (x :: source) post ->
  ~ Contains fenceOpen post ->
  convertTimelineBlocksToHtml renderMarkdown innerHTML
    (pre ++ fenceOpen ++ pad ++ nl :: (x :: source) ++ fenceClose ++ post)
    settings filePath
  = (await html <-
       renderTimelineHtml renderMarkdown innerHTML (x :: source) settings
         filePath ;
     Some (Converted (pre ++ html ++ post) 1)).
Proof.
  intros Hpre Hpad Hx F Hpost. rewrite convert_step.
  rewrite (execTimeline_block pre _ _ _ Hpre
             (matchHere_block _ _ _ _ Hpad Hx F)).
  rewrite (convert_step post), (execTimeline_no_open _ Hpost).
  unfold andThen.
  now destruct (renderTimelineHtml _ _ _ _ _).
Qed.

End ConversionFacts.

Lemma convert_no_blocks_witness :
  convertTimelineBlocksToHtml paragraphRenderer (fun r => r)
    (lit "```js" ++ [nl] ++ lit "let x" ++ fenceClose) DEFAULT_SETTINGS
    (lit "note.md")
  = Some NoBlocksFound
  /\ convertTimelineBlocksToHtml paragraphRenderer (fun r => r)
       (fenceOpen ++ [nl] ++ lit "2024 | Launch") DEFAULT_SETTINGS
       (lit "note.md")
     = Some NoBlocksFound.
Proof.
  split.
  - apply (convert_no_blocks _ paragraphRenderer (fun r => r)).
    left. apply cut_None. reflexivity.
  - apply (convert_no_blocks _ paragraphRenderer (fun r => r)).
    right. apply cut_None. reflexivity.
Defined.

Lemma convert_first_block_witness :
  convertTimelineBlocksToHtml paragraphRenderer (fun r => r) sampleNote
    DEFAULT_SETTINGS (lit "note.md")
  = (await html <-
       renderTimelineHtml paragraphRenderer (fun r => r)
         (lit "2024 | Launch") DEFAULT_SETTINGS (lit "note.md") ;
     await tail <-
       convertTimelineBlocksToHtml paragraphRenderer (fun r => r)
         ([nl] ++ lit "end") DEFAULT_SETTINGS (lit "note.md") ;
     Some (Converted
             ((lit "# Notes" ++ [nl]) ++ html
              ++ contentAfter ([nl] ++ lit "end") tail)
             (S (countOf tail)))).
Proof.
  assert (E : execTimeline sampleNote
              = Some (lit "# Notes" ++ [nl], lit "2024 | Launch",
                      [nl] ++ lit "end"))
    by (vm_compute; reflexivity).
  exact (proj2 (convert_first_block _ paragraphRenderer (fun r => r)
                  _ _ _ _ DEFAULT_SETTINGS (lit "note.md") E)).
Defined.

Lemma convert_single_block_witness :
  convertTimelineBlocksToHtml paragraphRenderer (fun r => r) sampleNote
    DEFAULT_SETTINGS (lit "note.md")
  = (await html <-
       renderTimelineHtml paragraphRenderer (fun r => r)
         (lit "2024 | Launch") DEFAULT_SETTINGS (lit "note.md") ;
     Some (Converted
             ((lit "# Notes" ++ [nl]) ++ html ++ [nl] ++ lit "end") 1)).
Proof.
  assert (Hpre : ~ In (ch "`") (lit "# Notes" ++ [nl]))
    by (cbv; intuition discriminate).
  assert (F : FirstOccurrence fenceClose
                ((ch "2" :: lit "024 | Launch") ++ fenceClose
                 ++ [nl] ++ lit "end")
                (ch "2" :: lit "024 | Launch") ([nl] ++ lit "end"))
    by (apply cut_Some; reflexivity).
  assert (Hpost : ~ Contains fenceOpen ([nl] ++ lit "end"))
    by (apply cut_None; reflexivity).
  exact (convert_single_block _ paragraphRenderer (fun r => r)
           (lit "# Notes" ++ [nl]) (lit "  ") (lit "024 | Launch")
           ([nl] ++ lit "end") (ch "2") DEFAULT_SETTINGS (lit "note.md")
           Hpre eq_refl eq_refl F Hpost).
Defined.

Example convert_sample :
  option_map noticeOf
    (convertTimelineBlocksToHtml paragraphRenderer (fun r => r)
       (sampleNote ++ [nl] ++ sampleNote) DEFAULT_SETTINGS (lit "note.md"))
  = Some (lit "Converted 2 timeline block(s) to HTML.")
  /\ option_map (contentAfter [])
       (convertTimelineBlocksToHtml paragraphRenderer (fun r => r)
          (lit "a" ++ fenceOpen ++ [nl; nl] ++ fenceClose ++ lit "b")
          (mkSettings false []) (lit "note.md"))
     = Some (lit "a<div class=" ++ dquote :: lit "timeline" ++ dquote
             :: lit "><div class=" ++ dquote :: lit "timeline-empty"
             ++ dquote
             :: lit ">No timeline entries found.</div></div>b").
Proof. split; vm_compute; reflexivity. Qed.

(* ================================================================== *)
(** ** The settings and the marker visibility *)

Lemma classListContains_In cls l :
  classListContains cls l = true <-> In cls l.
Proof.
  unfold classListContains. rewrite existsb_exists. split.
  - intros (x & Hin & E). apply String.eqb_eq in E. now subst.
  - intros H. exists cls. split; auto. apply String.eqb_refl.
Qed.

Lemma classListToggle_own cls force l :
  In cls (classListToggle cls force l) <-> force = true.
Proof.
  unfold classListToggle, classListAdd, classListRemove.
  destruct force.
  - split; auto. intros _.
    destruct (classListContains cls l) eqn:C.
    + now apply classListContains_In.
    + apply in_or_app. right. now left.
  - split; [|discriminate]. intros H. apply filter_In in H as [_ H].
    now rewrite String.eqb_refl in H.
Qed.

Lemma classListToggle_other cls force l c :
  c <> cls -> In c (classListToggle cls force l) <-> In c l.
Proof.
  intros Hc. unfold classListToggle, classListAdd, classListRemove.
  destruct force.
  - destruct (classListContains cls l); [tauto |].
    rewrite in_app_iff. simpl. intuition congruence.
  - rewrite filter_In. split; [tauto |]. intros H. split; auto.
    apply negb_true_iff. apply String.eqb_neq. congruence.
Qed.

Lemma classListToggle_NoDup cls force l :
  NoDup l -> NoDup (classListToggle cls force l).
Proof.
  intros H. unfold classListToggle, classListAdd, classListRemove.
  destruct force.
  - destruct (classListContains cls l) eqn:C; auto.
    apply NoDup_app; auto.
    + repeat constructor. intros [].
    + intros x Hx [<- | []].
      apply classListContains_In in Hx. congruence.
  - now apply NoDup_filter.
Qed.

Lemma applyMarkerVisibility_inSync st : classInSync (applyMarkerVisibility st).
Proof.
  unfold classInSync, applyMarkerVisibility. cbn [settings bodyClasses].
  rewrite classListToggle_own. now destruct (showMarkers _).
Qed.

Lemma handle_other classes ev st :
  (forall c, c <> hideMarkersClass ->
             In c (bodyClasses st) <-> In c classes) ->
  (NoDup classes -> NoDup (bodyClasses st)) ->
  (forall c, c <> hideMarkersClass ->
             In c (bodyClasses (handle ev st)) <-> In c classes)
  /\ (NoDup classes -> NoDup (bodyClasses (handle ev st))).
Proof.
  intros H2 H3. destruct ev as [value [|] | value];
    cbn [handle onShowMarkersChange onDefaultDateLabelChange
           applyMarkerVisibility settings bodyClasses showMarkers];
    split; auto.
  - intros c Hc. rewrite classListToggle_other by assumption. auto.
  - intros Hn. apply classListToggle_NoDup. auto.
Qed.

(** What every reachable state of a loaded plugin satisfies, [classes] being
    the class list of the body before loading. *)
Lemma runEvents_invariant classes events st :
  (forall c, c <> hideMarkersClass ->
             In c (bodyClasses st) <-> In c classes) ->
  (NoDup classes -> NoDup (bodyClasses st)) ->
  let st' := runEvents events st in
  (classInSync st -> allSaved events = true -> classInSync st')
  /\ (forall c, c <> hideMarkersClass ->
                In c (bodyClasses st') <-> In c classes)
  /\ (NoDup classes -> NoDup (bodyClasses st')).
Proof.
  revert st. induction events as [|ev events IH]; intros st H2 H3.
  - cbn. auto.
  - cbn [runEvents fold_left allSaved forallb].
    destruct (handle_other classes ev st H2 H3) as [H2' H3'].
    destruct (IH (handle ev st) H2' H3') as (I1 & I2 & I3).
    fold (runEvents events (handle ev st)).
    split; [|split]; auto.
    intros Hsync Hsaved. apply andb_true_iff in Hsaved as [Hev Hrest].
    apply I1; auto.
    destruct ev as [value saved | value]; cbn [handle].
    + subst saved. unfold onShowMarkersChange.
      apply applyMarkerVisibility_inSync.
    + exact Hsync.
Qed.

(** X12. The marker class follows the setting as long as the settings are
    saved.  After loading, and after any sequence of changes made in the
    settings tab in which every change of [showMarkers] was saved, the body
    carries the class [timeline-hide-markers] exactly when [showMarkers] is
    false.  A change of [showMarkers] whose save is rejected changes the
    setting and leaves the classes of the body as they were; the next saved
    change brings the class back in step.  Whatever the saves do, every
    other class of the body is as it was before loading and no class is
    doubled, and unloading removes the class and nothing else. *)
Theorem marker_class_invariant (data : option StoredData)
    (classes : classList) (events : list SettingsEvent) :
  let st := runEvents events (onload data classes) in
  (allSaved events = true -> classInSync st)
  /\ (forall value,
        bodyClasses (onShowMarkersChange value false st) = bodyClasses st
        /\ showMarkers (settings (onShowMarkersChange value false st))
           = value)
  /\ (forall value, classInSync (onShowMarkersChange value true st))
  /\ (forall c, c <> hideMarkersClass ->
                In c (bodyClasses st) <-> In c classes)
  /\ (NoDup classes -> NoDup (bodyClasses st))
  /\ ~ In hideMarkersClass (bodyClasses (onunload st))
  /\ (forall c, c <> hideMarkersClass ->
                In c (bodyClasses (onunload st)) <-> In c classes).
Proof.
  intros st.
  destruct (runEvents_invariant classes events (onload data classes))
    as (I1 & I2 & I3).
  - intros c Hc. unfold onload, applyMarkerVisibility.
    cbn [settings bodyClasses]. now apply classListToggle_other.
  - intros Hn. unfold onload, applyMarkerVisibility.
    cbn [settings bodyClasses]. now apply classListToggle_NoDup.
  - fold st in I1, I2, I3.
    assert (U : bodyClasses (onunload st)
                = classListToggle hideMarkersClass false (bodyClasses st))
      by reflexivity.
    split; [|split; [|split; [|split; [exact I2 | split; [exact I3 | split]]]]].
    + apply I1. unfold onload. apply applyMarkerVisibility_inSync.
    + intros value. split; reflexivity.
    + intros value. unfold onShowMarkersChange.
      apply applyMarkerVisibility_inSync.
    + rewrite U, classListToggle_own. discriminate.
    + intros c Hc. rewrite U, classListToggle_other by assumption.
      now apply I2.
Qed.

(** A change of [showMarkers] whose save is rejected leaves the class of the
    body behind the setting. *)
Example rejected_save_stale :
  let st := runEvents [ShowMarkersChanged false false] (onload None []) in
  showMarkers (settings st) = false /\ bodyClasses st = []
  /\ bodyClasses (runEvents [ShowMarkersChanged false true] (onload None []))
     = [hideMarkersClass].
Proof. repeat split. Qed.

Lemma marker_class_invariant_witness :
  classInSync
    (runEvents [ShowMarkersChanged false true;
                DefaultDateLabelChanged (lit " When ")]
       (onload None ["theme-dark"%string])).
Proof.
  exact (proj1 (marker_class_invariant None ["theme-dark"%string]
                  [ShowMarkersChanged false true;
                   DefaultDateLabelChanged (lit " When ")]) eq_refl).
Defined.

(** X13. The default date label typed in the settings tab is stored
    trimmed, so the renderers show it as stored: an entry without a date
    shows exactly the stored label when it is not empty, and no date when
    the typed label was white space alone.  The change touches neither
    [showMarkers] nor the classes of the body. *)
Theorem saved_label_displayed (value : jsstring) (st : PluginState)
    (entry : TimelineEntry) :
  date entry = None ->
  let st' := onDefaultDateLabelChange value st in
  dateTextOf (settings st') entry
  = orUndefined (defaultDateLabel (settings st'))
  /\ defaultDateLabel (settings st') = trim value
  /\ (forallb is_ws value = true -> dateTextOf (settings st') entry = None)
  /\ showMarkers (settings st') = showMarkers (settings st)
  /\ bodyClasses st' = bodyClasses st.
Proof.
  intros Hd st'. subst st'. unfold onDefaultDateLabelChange, dateTextOf.
  cbn [settings defaultDateLabel showMarkers bodyClasses].
  rewrite Hd, trim_idem. repeat split.
  intros Hws. now rewrite (trim_all_ws _ Hws).
Qed.

Lemma saved_label_displayed_witness :
  dateTextOf
    (settings (onDefaultDateLabelChange (lit "  When ")
                 (mkState DEFAULT_SETTINGS [])))
    (mkEntry None (Some (lit "Launch")) [])
  = Some (lit "When").
Proof.
  exact (proj1 (saved_label_displayed (lit "  When ")
                  (mkState DEFAULT_SETTINGS [])
                  (mkEntry None (Some (lit "Launch")) []) eq_refl)).
Defined.

(* ================================================================== *)
(** ** What the segmenter never produces *)

(** The trimmed text stands inside the text. *)
Lemma trim_infix s : exists a b, s = a ++ trim s ++ b.
Proof.
  unfold trim, trimStart, trimEnd.
  destruct (dropWhile_split is_ws s) as (a & Ea & _).
  destruct (dropWhile_split is_ws (rev (dropWhile is_ws s))) as (b & Eb & _).
  exists a, (rev b). rewrite <- rev_app_distr, <- Eb, rev_involutive.
  exact Ea.
Qed.

Lemma In_trim c s : In c (trim s) -> In c s.
Proof.
  intros H. destruct (trim_infix s) as (a & b & E). rewrite E.
  apply in_or_app. right. apply in_or_app. now left.
Qed.

Lemma Contains_infix sep a m b : Contains sep m -> Contains sep (a ++ m ++ b).
Proof.
  intros (p & q & ->). exists (a ++ p), (q ++ b).
  now rewrite <- !app_assoc.
Qed.

Lemma Contains_trim sep s : Contains sep (trim s) -> Contains sep s.
Proof.
  intros H. destruct (trim_infix s) as (a & b & E). rewrite E.
  now apply Contains_infix.
Qed.

Lemma FirstOccurrence_single c s pre post :
  FirstOccurrence [c] s pre post -> ~ In c pre.
Proof.
  intros [E Hmin] Hin. apply in_split in Hin as (a & b & ->).
  specialize (Hmin a (b ++ [c] ++ post)).
  rewrite E, <- app_assoc in Hmin. specialize (Hmin eq_refl).
  rewrite length_app in Hmin. simpl in Hmin. lia.
Qed.

Lemma not_Contains_single c s : ~ Contains [c] s -> ~ In c s.
Proof.
  intros H Hin. apply H. apply in_split in Hin as (a & b & ->).
  now exists a, b.
Qed.

(** X14. The date [parseHeader] finds never holds a pipe: with the pipe
    rule it is the text before the first pipe, and the other rules apply
    only to a line without a pipe. *)
Theorem date_has_no_pipe (line d : jsstring) :
  h_date (parseHeader line) = Some d -> ~ In (ch "|") d.
Proof.
  rewrite parseHeader_cut.
  destruct (cut pipe line) as [[p q]|] eqn:Cp.
  - cbn [h_date]. intros H. apply orUndefined_Some_eq in H. subst d.
    intros Hin. apply In_trim in Hin.
    now apply (FirstOccurrence_single _ _ _ _ (cut_Some _ _ _ _ Cp)).
  - apply cut_None, not_Contains_single in Cp.
    destruct (cut dash line) as [[p q]|] eqn:Cd; cbn [h_date];
      [|discriminate].
    intros H. apply orUndefined_Some_eq in H. subst d.
    intros Hin. apply In_trim in Hin. apply Cp.
    destruct (cut_Some _ _ _ _ Cd) as [-> _].
    apply in_or_app. now left.
Qed.

Lemma date_has_no_pipe_witness :
  ~ In (ch "|") (lit "2024 - 01").
Proof.
  exact (date_has_no_pipe (lit " 2024 - 01 | Launch | now") (lit "2024 - 01")
           eq_refl).
Defined.

(** The text before the place where [cutBlank] cuts, and a text it does not
    cut, have no two line feeds in a row. *)
Lemma cutBlank_piece s :
  match cutBlank s with
  | Some (p, _) => includes [nl; nl] p = false
  | None => includes [nl; nl] s = false
  end.
Proof.
  induction s as [|c r IH]; [reflexivity |].
  rewrite cutBlank_eq.
  destruct ((c =? nl)%N && startsWith [nl] r) eqn:T; [reflexivity |].
  destruct (cutBlank r) as [[p q]|] eqn:C.
  - cbn [includes startsWith]. rewrite IH, orb_false_r.
    destruct (cutBlank_Some_shape _ _ _ C) as (m & E & Hm & Hnl).
    rewrite N.eqb_sym.
    destruct (c =? nl)%N; [|reflexivity]. cbn [andb] in *.
    destruct p as [|x p]; [reflexivity |].
    rewrite E in T. cbn [app startsWith] in T. cbn [startsWith].
    exact T.
  - cbn [includes startsWith]. rewrite IH, orb_false_r.
    rewrite N.eqb_sym.
    destruct (c =? nl)%N; [|reflexivity]. cbn [andb] in *.
    destruct r as [|x r]; [reflexivity |]. cbn [startsWith] in *. exact T.
Qed.

Lemma splitBlank_pieces n :
  forall s, length s < n ->
            Forall (fun p => ~ Contains [nl; nl] p) (splitBlank s).
Proof.
  induction n as [|n IH]; intros s Hlen; [lia |].
  rewrite splitBlank_unfold. pose proof (cutBlank_piece s) as P.
  destruct (cutBlank s) as [[p q]|] eqn:C.
  - constructor.
    + rewrite <- includes_Contains. now rewrite P.
    + apply IH. apply cutBlank_shrinks in C.
      unfold jsstring, char in *. lia.
  - constructor; auto. rewrite <- includes_Contains. now rewrite P.
Qed.

Lemma blocksOf_no_blank t block :
  In block (blocksOf t) -> ~ Contains [nl; nl] block.
Proof.
  unfold blocksOf. intros H. apply filter_In in H as [H _].
  apply in_map_iff in H as (piece & <- & Hin).
  pose proof (splitBlank_pieces (S (length t)) t (Nat.lt_succ_diag_r _)) as F.
  rewrite Forall_forall in F. intros Hc.
  apply (F piece Hin). now apply Contains_trim.
Qed.

Lemma bodyLinesOf_infix block :
  Contains [nl; nl] (bodyLinesOf block) -> Contains [nl; nl] block.
Proof.
  unfold bodyLinesOf, blockLines. intros H. apply Contains_trim in H.
  destruct (cut [nl] block) as [[p q]|] eqn:C.
  - assert (Hnl : [nl] <> []) by discriminate.
    destruct (split_Some _ _ _ _ Hnl C) as (rest & E & _ & Hj).
    rewrite E in H. cbn [skipn] in H. rewrite Hj in H.
    destruct (cut_Some _ _ _ _ C) as [-> _].
    apply Contains_app_l. now apply Contains_app_l.
  - rewrite (split_None _ _ C) in H. destruct H as (a & b & E).
    destruct a; discriminate E.
Qed.

(** X15. No body holds an empty line: the source is cut at every run of two
    or more line feeds, so the body of an entry never has two line feeds in
    a row. *)
Theorem body_has_no_blank_line (source : jsstring) (e : TimelineEntry) :
  In e (parseTimelineSource source) -> ~ Contains [nl; nl] (body e).
Proof.
  rewrite parseTimelineSource_blocks. intros H.
  apply in_map_iff in H as (block & <- & Hin).
  pose proof (blocksOf_no_blank _ _ Hin) as Hb.
  destruct (isLikelyBodyStart (firstLineOf block)) eqn:B.
  - now rewrite parseBlock_bodyStart.
  - rewrite parseBlock_header by assumption. cbv zeta.
    destruct (_ && _); cbn [body bodyOnly]; auto.
    intros Hc. apply Hb. now apply bodyLinesOf_infix.
Qed.

Lemma body_has_no_blank_line_witness :
  ~ Contains [nl; nl] (lit "one" ++ [nl] ++ lit "two").
Proof.
  apply (body_has_no_blank_line
           (lit "2024 | A" ++ [nl] ++ lit "one" ++ [nl] ++ lit "two"
            ++ [nl; nl; nl] ++ lit "B")
           (mkEntry (Some (lit "2024")) (Some (lit "A"))
              (lit "one" ++ [nl] ++ lit "two"))).
  left. reflexivity.
Defined.
